(** * zap: the Logger admission pipeline and option composition

    A shallow embedding of [logger.go] and [options.go] of package [zap].

    Loggers are handled through pointers in the source ([*Logger]); they
    live here in a store indexed by locations, so that cloning, aliasing
    and in-place mutation by options are visible.  The sink ([zapcore.Core]),
    the time source and the stack capture are capabilities the package
    consumes: they are type classes, and every call the pipeline makes to
    one of them is recorded in a trace. *)

From stdpp Require Import gmap strings list fin_maps.
From Stdlib Require Import ZArith Lia.

Local Open Scope Z_scope.

(* ===================================================================== *)
(** ** Values of package zapcore that the logger handles *)
(* ===================================================================== *)

(** [zapcore.Level] is an [int8]. *)
Definition Level := Z.

Definition DebugLevel : Level := -1.
Definition InfoLevel : Level := 0.
Definition WarnLevel : Level := 1.
Definition ErrorLevel : Level := 2.
Definition DPanicLevel : Level := 3.
Definition PanicLevel : Level := 4.
Definition FatalLevel : Level := 5.

(** [time.Time], as an instant counted in nanoseconds. *)
Definition Time := Z.

(** A structured field; the logger only ever counts and forwards them. *)
Record Field := mkField { FieldKey : string; FieldString : string }.

(** [zapcore.CheckWriteAction], a [uint8] enumeration. *)
Inductive CheckWriteAction :=
  | WriteThenNoop
  | WriteThenGoexit
  | WriteThenPanic
  | WriteThenFatal.

(** [zapcore.CheckWriteHook] is an interface: a value of it is either a
    [CheckWriteAction] or a hook the user wrote, told apart by an
    identifier.  The nil interface is [None] in [option CheckWriteHook]. *)
Inductive CheckWriteHook :=
  | ActionHook (a : CheckWriteAction)
  | CustomHook (id : nat).

#[global] Instance CheckWriteAction_eq_dec : EqDecision CheckWriteAction.
Proof. solve_decision. Defined.

#[global] Instance CheckWriteHook_eq_dec : EqDecision CheckWriteHook.
Proof. solve_decision. Defined.

(** [zapcore.WriteSyncer] values: the locked standard error of [New], the
    discarding writer of [NewNop], and any other destination.  Interface
    fields that the source never tests against nil ([errorOutput], [core],
    [clock], [addStack]) are modelled by their non-nil values. *)
Inductive WriteSyncer :=
  | LockedStderr
  | Discard
  | Syncer (id : nat).

#[global] Instance WriteSyncer_eq_dec : EqDecision WriteSyncer.
Proof. solve_decision. Defined.

(** [zapcore.LevelEnabler]: a [Level] is one (it enables every level at or
    above itself), and so is any predicate ([LevelEnablerFunc]). *)
Inductive LevelEnabler :=
  | LevelOf (l : Level)
  | LevelEnablerFunc (f : Level → bool).

Definition LevelEnabler_Enabled (e : LevelEnabler) (lvl : Level) : bool :=
  match e with
  | LevelOf l => bool_decide (l ≤ lvl)
  | LevelEnablerFunc f => f lvl
  end.

Record EntryCaller := mkEntryCaller {
  CallerDefined : bool;
  CallerPC : Z;
  CallerFile : string;
  CallerLine : Z;
  CallerFunction : string
}.

Record Entry := mkEntry {
  LoggerName : string;
  EntryTime : Time;
  EntryLevel : Level;
  Message : string;
  Caller : EntryCaller;
  Stack : string
}.

(** The zero value of [EntryCaller], left in place by a composite literal
    that does not mention [Caller]. *)
Definition noCaller : EntryCaller := mkEntryCaller false 0 "" 0 "".

(** [zapcore.CheckedEntry], with the fields the logger reads or writes: the
    embedded [Entry], [ErrorOutput] (nil until the logger threads its own
    through) and the terminal action [after]. *)
Record CheckedEntry := mkCheckedEntry {
  ceEntry : Entry;
  ceErrorOutput : option WriteSyncer;
  ceAfter : option CheckWriteHook
}.

(** Modelled from the spec: [CheckedEntry.After] of package zapcore, which is
    not among the sources.  The spec has the action forced onto the record,
    "synthesizing a minimal admission record if step 3 returned nothing": a
    nil receiver yields a record that only carries the entry and the
    action. *)
Definition After (ce : option CheckedEntry) (ent : Entry)
    (hook : CheckWriteHook) : option CheckedEntry :=
  match ce with
  | None => Some (mkCheckedEntry ent None (Some hook))
  | Some c => Some (mkCheckedEntry (ceEntry c) (ceErrorOutput c) (Some hook))
  end.

(** Modelled from the spec: [CheckedEntry.Should] of package zapcore, the
    same forcing for an action of the enumeration. *)
Definition Should (ce : option CheckedEntry) (ent : Entry)
    (should : CheckWriteAction) : option CheckedEntry :=
  After ce ent (ActionHook should).

(** A write-observer hook, [func(zapcore.Entry) error]. *)
Definition Hook := Entry → option string.

(** [runtime.Frame], as far as the logger reads it. *)
Record Frame := mkFrame {
  FramePC : Z;
  FrameFile : string;
  FrameLine : Z;
  FrameFunction : string
}.

Inductive stacktraceDepth := stacktraceFirst | stacktraceFull.

(* ===================================================================== *)
(** ** Capabilities *)
(* ===================================================================== *)

(** The sink, [zapcore.Core], and the constructors of package zapcore that
    build sinks.  [NewIncreaseLevelCore] fails with an error message. *)
Class Sink (Core : Type) := {
  Core_Enabled : Core → Level → bool;
  Core_With : Core → list Field → Core;
  Core_Check : Core → Entry → option CheckedEntry → option CheckedEntry;
  NewNopCore : Core;
  RegisterHooks : Core → list Hook → Core;
  NewIncreaseLevelCore : Core → LevelEnabler → Core + string
}.

(** The time source, [zapcore.Clock]. *)
Class TimeSource (Clock : Type) := {
  Clock_Now : Clock → Time;
  DefaultClock : Clock
}.

(** What the Go runtime and the package's stack helpers provide: the frames
    [captureStacktrace] yields for a skip count and a depth, the stack
    formatter, and the printing of an instant in UTC. *)
Class Runtime := {
  captureStacktrace : Z → stacktraceDepth → list Frame;
  FormatFrame : Frame → string;
  FormatStack : list Frame → string;
  FormatUTC : Time → string
}.

(** Go's [int] on a 64-bit platform: sums wrap around. *)
Definition wrap_int (z : Z) : Z := (z + 2 ^ 63) `mod` 2 ^ 64 - 2 ^ 63.

Definition int_add (a b : Z) : Z := wrap_int (a + b).

(* ===================================================================== *)
(** ** The Logger and the store it lives in *)
(* ===================================================================== *)

Record Logger (Core Clock : Type) := mkLogger {
  core : Core;
  development : bool;
  addCaller : bool;
  onFatal : option CheckWriteHook;
  name : string;
  errorOutput : WriteSyncer;
  addStack : LevelEnabler;
  callerSkip : Z;
  clock : Clock
}.

Arguments mkLogger {Core Clock}.
Arguments core {Core Clock}.
Arguments development {Core Clock}.
Arguments addCaller {Core Clock}.
Arguments onFatal {Core Clock}.
Arguments name {Core Clock}.
Arguments errorOutput {Core Clock}.
Arguments addStack {Core Clock}.
Arguments callerSkip {Core Clock}.
Arguments clock {Core Clock}.

(** Pointers to loggers. *)
Definition loc := positive.

(** A call the package makes to one of its capabilities. *)
Inductive Event :=
  | EvCoreEnabled (lvl : Level)
  | EvClockNow
  | EvCoreCheck (ent : Entry)
  | EvCapture (skip : Z) (depth : stacktraceDepth)
  | EvStackFree
  | EvBufferGet
  | EvBufferFree
  | EvFprintf (w : WriteSyncer) (msg : string)
  | EvSync (w : WriteSyncer).

(** The number of messages a trace prints to a given destination. *)
Fixpoint countReports (dst : WriteSyncer) (tr : list Event) : nat :=
  match tr with
  | [] => 0
  | EvFprintf w _ :: rest =>
      ((if decide (w = dst) then 1 else 0) + countReports dst rest)%nat
  | _ :: rest => countReports dst rest
  end.

(** Kinds of events, and how often a kind occurs in a trace. *)
Definition isCapture (e : Event) : bool :=
  match e with EvCapture _ _ => true | _ => false end.

Definition isStackFree (e : Event) : bool :=
  match e with EvStackFree => true | _ => false end.

Definition isBufferGet (e : Event) : bool :=
  match e with EvBufferGet => true | _ => false end.

Definition isBufferFree (e : Event) : bool :=
  match e with EvBufferFree => true | _ => false end.

Definition isFprintf (e : Event) : bool :=
  match e with EvFprintf _ _ => true | _ => false end.

Definition countIf (p : Event → bool) (tr : list Event) : nat :=
  length (List.filter p tr).

(** The call a logging method makes to [CheckedEntry.Write]: the record it
    is made on and the fields handed over. *)
Record WriteCall := mkWriteCall {
  wcEntry : CheckedEntry;
  wcFields : list Field
}.

(** The fields of a [Logger], to say which one an option assigns. *)
Inductive LoggerField :=
  | F_core
  | F_development
  | F_addCaller
  | F_onFatal
  | F_errorOutput
  | F_addStack
  | F_callerSkip
  | F_clock.

Record World (Core Clock : Type) := mkWorld {
  heap : gmap loc (Logger Core Clock);
  trace : list Event
}.

Arguments mkWorld {Core Clock}.
Arguments heap {Core Clock}.
Arguments trace {Core Clock}.

(** Computations over the world; [None] is a run-time panic (a load or a
    store through a pointer that addresses no logger, nil included). *)
Definition M (Core Clock : Type) (A : Type) : Type :=
  World Core Clock → option (A * World Core Clock).

#[global] Instance M_ret {Core Clock} : MRet (M Core Clock) :=
  λ A a w, Some (a, w).

#[global] Instance M_bind {Core Clock} : MBind (M Core Clock) :=
  λ A B f m w,
    match m w with
    | Some (a, w') => f a w'
    | None => None
    end.

Section Store.
Context {Core Clock : Type}.

Definition deref (l : loc) : M Core Clock (Logger Core Clock) :=
  λ w, match heap w !! l with
       | Some L => Some (L, w)
       | None => None
       end.

Definition store (l : loc) (L : Logger Core Clock) : M Core Clock unit :=
  λ w, match heap w !! l with
       | Some _ => Some (tt, mkWorld (<[l := L]> (heap w)) (trace w))
       | None => None
       end.

Definition alloc (L : Logger Core Clock) : M Core Clock loc :=
  λ w, let l := fresh (dom (heap w)) in
       Some (l, mkWorld (<[l := L]> (heap w)) (trace w)).

Definition emit (e : Event) : M Core Clock unit :=
  λ w, Some (tt, mkWorld (heap w) (trace w ++ [e])).

Definition panic {A} : M Core Clock A := λ _, None.
End Store.

(* ===================================================================== *)
(** ** logger.go *)
(* ===================================================================== *)

Section LoggerOps.
Context {Core Clock : Type} {sink : Sink Core} {time : TimeSource Clock}
  {rt : Runtime}.

Local Abbreviation Logger := (Logger Core Clock).
Local Abbreviation World := (World Core Clock).
Local Abbreviation M := (M Core Clock).

(** Assignments to one field of a logger. *)
Definition set_core (L : Logger) (c : Core) : Logger :=
  mkLogger c (development L) (addCaller L) (onFatal L) (name L)
    (errorOutput L) (addStack L) (callerSkip L) (clock L).

Definition set_development (L : Logger) (b : bool) : Logger :=
  mkLogger (core L) b (addCaller L) (onFatal L) (name L)
    (errorOutput L) (addStack L) (callerSkip L) (clock L).

Definition set_addCaller (L : Logger) (b : bool) : Logger :=
  mkLogger (core L) (development L) b (onFatal L) (name L)
    (errorOutput L) (addStack L) (callerSkip L) (clock L).

Definition set_onFatal (L : Logger) (h : option CheckWriteHook) : Logger :=
  mkLogger (core L) (development L) (addCaller L) h (name L)
    (errorOutput L) (addStack L) (callerSkip L) (clock L).

Definition set_name (L : Logger) (s : string) : Logger :=
  mkLogger (core L) (development L) (addCaller L) (onFatal L) s
    (errorOutput L) (addStack L) (callerSkip L) (clock L).

Definition set_errorOutput (L : Logger) (w : WriteSyncer) : Logger :=
  mkLogger (core L) (development L) (addCaller L) (onFatal L) (name L)
    w (addStack L) (callerSkip L) (clock L).

Definition set_addStack (L : Logger) (e : LevelEnabler) : Logger :=
  mkLogger (core L) (development L) (addCaller L) (onFatal L) (name L)
    (errorOutput L) e (callerSkip L) (clock L).

Definition set_callerSkip (L : Logger) (n : Z) : Logger :=
  mkLogger (core L) (development L) (addCaller L) (onFatal L) (name L)
    (errorOutput L) (addStack L) n (clock L).

Definition set_clock (L : Logger) (c : Clock) : Logger :=
  mkLogger (core L) (development L) (addCaller L) (onFatal L) (name L)
    (errorOutput L) (addStack L) (callerSkip L) c.

(** [func (log *Logger) clone() *Logger]: a copy at a new address. *)
Definition clone (log : loc) : M loc :=
  L ← deref log;
  alloc L.

(** [func NewNop() *Logger] *)
Definition NewNop : M loc :=
  alloc (mkLogger NewNopCore false false None "" Discard
           (LevelOf (FatalLevel + 1)) 0 DefaultClock).

(** [func (log *Logger) Named(s string) *Logger] *)
Definition Named (log : loc) (s : string) : M loc :=
  if decide (s = "") then mret log
  else
    l ← clone log;
    Llog ← deref log;
    Ll ← deref l;
    (if decide (name Llog = "")
     then store l (set_name Ll s)
     else store l (set_name Ll (String.concat "." [name Ll; s])));;
    mret l.

(** [func (log *Logger) With(fields ...Field) *Logger] *)
Definition With (log : loc) (fields : list Field) : M loc :=
  if decide (length fields = 0%nat) then mret log
  else
    l ← clone log;
    Ll ← deref l;
    store l (set_core Ll (Core_With (core Ll) fields));;
    mret l.

(** The sugared view holds the pointer to its base logger. *)
Record SugaredLogger := mkSugaredLogger { base : loc }.

(** [func (log *Logger) Sugar() *SugaredLogger] *)
Definition Sugar (log : loc) : M SugaredLogger :=
  c ← clone log;
  Lc ← deref c;
  store c (set_callerSkip Lc (int_add (callerSkip Lc) 2));;
  mret (mkSugaredLogger c).
(* --------------------------------------------------------------------- *)
(** *** options.go *)

(** An [Option] is an interface whose only method, [apply], is unexported:
    its values are the closures built by the constructors of options.go.
    Each constructor is a variant here, and [apply] runs the closure's body
    on the logger the pointer addresses. *)
Inductive Option :=
  | WrapCore (f : Core → Core)
  | Hooks (hooks : list Hook)
  | Fields (fs : list Field)
  | ErrorOutput (w : WriteSyncer)
  | Development
  | WithCaller (enabled : bool)
  | AddCallerSkip (skip : Z)
  | AddStacktrace (lvl : LevelEnabler)
  | IncreaseLevel (lvl : LevelEnabler)
  | WithFatalHook (hook : option CheckWriteHook)
  | WithClock (clock : Clock).

(** [func AddCaller() Option] *)
Definition AddCaller : Option := WithCaller true.


Definition newline : string := String (Ascii.ascii_of_nat 10) "".

(** [func (f optionFunc) apply(log *Logger)] *)
Definition apply (opt : Option) (log : loc) : M unit :=
  L ← deref log;
  match opt with
  | WrapCore f => store log (set_core L (f (core L)))
  | Hooks hooks => store log (set_core L (RegisterHooks (core L) hooks))
  | Fields fs => store log (set_core L (Core_With (core L) fs))
  | ErrorOutput w => store log (set_errorOutput L w)
  | Development => store log (set_development L true)
  | WithCaller enabled => store log (set_addCaller L enabled)
  | AddCallerSkip skip =>
      store log (set_callerSkip L (int_add (callerSkip L) skip))
  | AddStacktrace lvl => store log (set_addStack L lvl)
  | IncreaseLevel lvl =>
      match NewIncreaseLevelCore (core L) lvl with
      | inr err =>
          emit (EvFprintf (errorOutput L)
                  ("failed to IncreaseLevel: " +:+ err +:+ newline))
      | inl c => store log (set_core L c)
      end
  | WithFatalHook hook => store log (set_onFatal L hook)
  | WithClock c => store log (set_clock L c)
  end.

(* --------------------------------------------------------------------- *)
(** *** logger.go, continued *)

(** The loop of [WithOptions]: [for _, opt := range opts { opt.apply(c) }]. *)
Fixpoint applyAll (opts : list Option) (c : loc) : M unit :=
  match opts with
  | [] => mret tt
  | opt :: rest => apply opt c;; applyAll rest c
  end.

(** [func (log *Logger) WithOptions(opts ...Option) *Logger] *)
Definition WithOptions (log : loc) (opts : list Option) : M loc :=
  c ← clone log;
  applyAll opts c;;
  mret c.

(** [func New(core zapcore.Core, options ...Option) *Logger]; a nil [core]
    is [None]. *)
Definition New (core : option Core) (options : list Option) : M loc :=
  match core with
  | None => NewNop
  | Some core =>
      log ← alloc (mkLogger core false false None "" LockedStderr
                     (LevelOf (FatalLevel + 1)) 0 DefaultClock);
      WithOptions log options
  end.

Definition callerSkipOffset : Z := 2.

(** The hook a Fatal entry gets: [nil] and [WriteThenNoop] give way to
    [WriteThenFatal] (lines 397-413). *)
Definition fatalHook (L : Logger) : CheckWriteHook :=
  match onFatal L with
  | None => ActionHook WriteThenFatal
  | Some h =>
      if decide (h = ActionHook WriteThenNoop) then ActionHook WriteThenFatal
      else h
  end.

(** The [switch ent.Level] of [check] (lines 393-419). *)
Definition terminal (L : Logger) (ent : Entry) (ce : option CheckedEntry)
    : option CheckedEntry :=
  if decide (EntryLevel ent = PanicLevel) then Should ce ent WriteThenPanic
  else if decide (EntryLevel ent = FatalLevel) then After ce ent (fatalHook L)
  else if decide (EntryLevel ent = DPanicLevel) then
    if development L then Should ce ent WriteThenPanic else ce
  else ce.

Definition set_ErrorOutput (ce : CheckedEntry) (w : WriteSyncer) : CheckedEntry :=
  mkCheckedEntry (ceEntry ce) (Some w) (ceAfter ce).

Definition set_Caller (ce : CheckedEntry) (c : EntryCaller) : CheckedEntry :=
  let e := ceEntry ce in
  mkCheckedEntry
    (mkEntry (LoggerName e) (EntryTime e) (EntryLevel e) (Message e) c (Stack e))
    (ceErrorOutput ce) (ceAfter ce).

Definition set_Stack (ce : CheckedEntry) (s : string) : CheckedEntry :=
  let e := ceEntry ce in
  mkCheckedEntry
    (mkEntry (LoggerName e) (EntryTime e) (EntryLevel e) (Message e) (Caller e) s)
    (ceErrorOutput ce) (ceAfter ce).

(** [func (log *Logger) check(lvl zapcore.Level, msg string) *zapcore.CheckedEntry] *)
Definition check (log : loc) (lvl : Level) (msg : string)
    : M (option CheckedEntry) :=
  L ← deref log;
  rejected ← (if bool_decide (lvl < DPanicLevel)
              then emit (EvCoreEnabled lvl);;
                   mret (negb (Core_Enabled (core L) lvl))
              else mret false);
  if (rejected : bool) then mret None
  else
    emit EvClockNow;;
    let ent := mkEntry (name L) (Clock_Now (clock L)) lvl msg noCaller "" in
    emit (EvCoreCheck ent);;
    let ce := Core_Check (core L) ent None in
    let willWrite := bool_decide (ce ≠ None) in
    let ce := terminal L ent ce in
    if negb willWrite then mret ce
    else
      match ce with
      | None => panic
      | Some ce =>
          let ce := set_ErrorOutput ce (errorOutput L) in
          let addStack :=
            LevelEnabler_Enabled (addStack L) (EntryLevel (ceEntry ce)) in
          if negb (addCaller L) && negb addStack then mret (Some ce)
          else
            let stackDepth :=
              if addStack then stacktraceFull else stacktraceFirst in
            let skip := int_add (callerSkip L) callerSkipOffset in
            emit (EvCapture skip stackDepth);;
            match captureStacktrace skip stackDepth with
            | [] =>
                (if addCaller L
                 then emit (EvFprintf (errorOutput L)
                              (FormatUTC (EntryTime ent) +:+
                               " Logger.check error: failed to get caller"
                               +:+ newline));;
                      emit (EvSync (errorOutput L))
                 else mret tt);;
                emit EvStackFree;;
                mret (Some ce)
            | frame :: rest =>
                let more := bool_decide (rest ≠ []) in
                let ce :=
                  if addCaller L
                  then set_Caller ce
                         (mkEntryCaller (bool_decide (FramePC frame ≠ 0))
                            (FramePC frame) (FrameFile frame)
                            (FrameLine frame) (FrameFunction frame))
                  else ce in
                if addStack then
                  emit EvBufferGet;;
                  let buffer :=
                    FormatFrame frame +:+
                    (if more then FormatStack rest else "") in
                  let ce := set_Stack ce buffer in
                  emit EvBufferFree;;
                  emit EvStackFree;;
                  mret (Some ce)
                else
                  emit EvStackFree;;
                  mret (Some ce)
            end
      end.

(** [func (log *Logger) Check(lvl zapcore.Level, msg string) *zapcore.CheckedEntry] *)
Definition Check (log : loc) (lvl : Level) (msg : string)
    : M (option CheckedEntry) :=
  check log lvl msg.

(** The body shared by the seven logging methods,
    [if ce := log.check(lvl, msg); ce != nil { ce.Write(fields...) }].
    [CheckedEntry.Write] belongs to package zapcore: a method's result here
    is the call to [Write] it makes, if it makes one. *)
Definition writeIfChecked (ce : option CheckedEntry) (fields : list Field)
    : M (option WriteCall) :=
  match ce with
  | Some ce => mret (Some (mkWriteCall ce fields))
  | None => mret None
  end.

(** [func (log *Logger) Debug(msg string, fields ...Field)] *)
Definition Debug (log : loc) (msg : string) (fields : list Field)
    : M (option WriteCall) :=
  ce ← check log DebugLevel msg;
  writeIfChecked ce fields.

(** [func (log *Logger) Info(msg string, fields ...Field)] *)
Definition Info (log : loc) (msg : string) (fields : list Field)
    : M (option WriteCall) :=
  ce ← check log InfoLevel msg;
  writeIfChecked ce fields.

(** [func (log *Logger) Warn(msg string, fields ...Field)] *)
Definition Warn (log : loc) (msg : string) (fields : list Field)
    : M (option WriteCall) :=
  ce ← check log WarnLevel msg;
  writeIfChecked ce fields.

(** [func (log *Logger) Error(msg string, fields ...Field)] *)
Definition Error (log : loc) (msg : string) (fields : list Field)
    : M (option WriteCall) :=
  ce ← check log ErrorLevel msg;
  writeIfChecked ce fields.

(** [func (log *Logger) DPanic(msg string, fields ...Field)] *)
Definition DPanic (log : loc) (msg : string) (fields : list Field)
    : M (option WriteCall) :=
  ce ← check log DPanicLevel msg;
  writeIfChecked ce fields.

(** [func (log *Logger) Panic(msg string, fields ...Field)] *)
Definition Panic (log : loc) (msg : string) (fields : list Field)
    : M (option WriteCall) :=
  ce ← check log PanicLevel msg;
  writeIfChecked ce fields.

(** [func (log *Logger) Fatal(msg string, fields ...Field)] *)
Definition Fatal (log : loc) (msg : string) (fields : list Field)
    : M (option WriteCall) :=
  ce ← check log FatalLevel msg;
  writeIfChecked ce fields.

(* --------------------------------------------------------------------- *)
(** *** Vocabulary for the statements *)

(** The entry [check] builds (lines 382-387). *)
Definition entryOf (L : Logger) (lvl : Level) (msg : string) : Entry :=
  mkEntry (name L) (Clock_Now (clock L)) lvl msg noCaller "".

(** The calls [check] makes before it resolves the terminal action. *)
Definition admissionEvents (L : Logger) (lvl : Level) (msg : string)
    : list Event :=
  (if bool_decide (lvl < DPanicLevel) then [EvCoreEnabled lvl] else [])
  ++ [EvClockNow; EvCoreCheck (entryOf L lvl msg)].

(** The snapshot a computation hands out: the logger its result points to. *)
Definition issued (m : M loc) (w : World) : option Logger :=
  match m w with
  | Some (l, w') => heap w' !! l
  | None => None
  end.

(** The logger an option's closure leaves behind, given the one it finds. *)
Definition applied (L : Logger) (opt : Option) : Logger :=
  match opt with
  | WrapCore f => set_core L (f (core L))
  | Hooks hooks => set_core L (RegisterHooks (core L) hooks)
  | Fields fs => set_core L (Core_With (core L) fs)
  | ErrorOutput w => set_errorOutput L w
  | Development => set_development L true
  | WithCaller enabled => set_addCaller L enabled
  | AddCallerSkip skip => set_callerSkip L (int_add (callerSkip L) skip)
  | AddStacktrace lvl => set_addStack L lvl
  | IncreaseLevel lvl =>
      match NewIncreaseLevelCore (core L) lvl with
      | inl c => set_core L c
      | inr _ => L
      end
  | WithFatalHook hook => set_onFatal L hook
  | WithClock c => set_clock L c
  end.

(** What the name becomes when segment [s] is added to [n]. *)
Definition joined (n s : string) : string :=
  if decide (n = "") then s else n +:+ "." +:+ s.

(** The logger [New] starts from, before any option (lines 92-97). *)
Definition defaultLogger (c : Core) : Logger :=
  mkLogger c false false None "" LockedStderr (LevelOf (FatalLevel + 1)) 0
    DefaultClock.

(** The field an option's closure assigns. *)
Definition assigns (opt : Option) : LoggerField :=
  match opt with
  | WrapCore _ | Hooks _ | Fields _ | IncreaseLevel _ => F_core
  | ErrorOutput _ => F_errorOutput
  | Development => F_development
  | WithCaller _ => F_addCaller
  | AddCallerSkip _ => F_callerSkip
  | AddStacktrace _ => F_addStack
  | WithFatalHook _ => F_onFatal
  | WithClock _ => F_clock
  end.

(** Whether [check] captures the stack for a record it is going to write
    (line 433), and at which depth and skip count (lines 441-445). *)
Definition wantsStack (L : Logger) (c : CheckedEntry) : bool :=
  LevelEnabler_Enabled (addStack L) (EntryLevel (ceEntry c)).

Definition captureDepth (L : Logger) (c : CheckedEntry) : stacktraceDepth :=
  if wantsStack L c then stacktraceFull else stacktraceFirst.

Definition captureSkip (L : Logger) : Z :=
  int_add (callerSkip L) callerSkipOffset.

(** The caller [check] records for a frame (lines 459-465). *)
Definition callerOf (f : Frame) : EntryCaller :=
  mkEntryCaller (bool_decide (FramePC f ≠ 0)) (FramePC f) (FrameFile f)
    (FrameLine f) (FrameFunction f).

(** The message [check] prints when no frame is available (line 450). *)
Definition noCallerReport (L : Logger) : Event :=
  EvFprintf (errorOutput L)
    (FormatUTC (Clock_Now (clock L))
     +:+ " Logger.check error: failed to get caller" +:+ newline).

(** Lines 428-485 of [check] as a function of the logger and of the record
    the level switch left: the record returned and the calls made. *)
Definition annotate (L : Logger) (c1 : CheckedEntry)
    : CheckedEntry * list Event :=
  let ce := set_ErrorOutput c1 (errorOutput L) in
  if negb (addCaller L) && negb (wantsStack L c1) then (ce, [])
  else
    match captureStacktrace (captureSkip L) (captureDepth L c1) with
    | [] =>
        (ce,
         EvCapture (captureSkip L) (captureDepth L c1)
         :: (if addCaller L
             then [noCallerReport L; EvSync (errorOutput L)] else [])
         ++ [EvStackFree])
    | frame :: rest =>
        let ce := if addCaller L then set_Caller ce (callerOf frame) else ce in
        if wantsStack L c1 then
          (set_Stack ce
             (FormatFrame frame +:+
              (if bool_decide (rest ≠ []) then FormatStack rest else "")),
           [EvCapture (captureSkip L) (captureDepth L c1);
            EvBufferGet; EvBufferFree; EvStackFree])
        else
          (ce, [EvCapture (captureSkip L) (captureDepth L c1); EvStackFree])
    end.
End LoggerOps.

(* ===================================================================== *)
(** ** Capabilities to run the code on *)
(* ===================================================================== *)

(** A sink in the manner of zapcore's own: the no-op sink, and a sink that
    admits the levels at or above a threshold and accumulates fields. *)
Inductive TestCore :=
  | NopCore
  | LevelCore (min : Level) (fields : list Field).

Definition TestCore_Enabled (c : TestCore) (lvl : Level) : bool :=
  match c with
  | NopCore => false
  | LevelCore min _ => bool_decide (min ≤ lvl)
  end.

Definition TestCore_With (c : TestCore) (fs : list Field) : TestCore :=
  match c with
  | NopCore => NopCore
  | LevelCore min fields => LevelCore min (fields ++ fs)
  end.

Definition TestCore_Check (c : TestCore) (ent : Entry)
    (ce : option CheckedEntry) : option CheckedEntry :=
  if TestCore_Enabled c (EntryLevel ent) then
    match ce with
    | None => Some (mkCheckedEntry ent None None)
    | Some x => Some x
    end
  else ce.

Definition TestCore_IncreaseLevel (c : TestCore) (e : LevelEnabler)
    : TestCore + string :=
  match c, e with
  | LevelCore min fields, LevelOf l =>
      if bool_decide (min ≤ l) then inl (LevelCore l fields)
      else inr "invalid increase level"
  | NopCore, _ => inl NopCore
  | _, LevelEnablerFunc _ => inr "invalid increase level"
  end.

#[global] Instance TestCore_Sink : Sink TestCore := {|
  Core_Enabled := TestCore_Enabled;
  Core_With := TestCore_With;
  Core_Check := TestCore_Check;
  NewNopCore := NopCore;
  RegisterHooks := λ c _, c;
  NewIncreaseLevelCore := TestCore_IncreaseLevel
|}.

(** A clock that always reads the instant it holds. *)
#[global] Instance ConstantClock : TimeSource Z := {|
  Clock_Now := λ t, t;
  DefaultClock := 0
|}.

Definition sampleFrames : list Frame :=
  [mkFrame 4198400 "main.go" 12 "main.run";
   mkFrame 4198000 "main.go" 30 "main.main";
   mkFrame 4190000 "proc.go" 250 "runtime.main"].

Definition formatFrame (f : Frame) : string :=
  FrameFunction f +:+ " " +:+ FrameFile f.

(** A runtime whose capture yields frames. *)
Definition framesRuntime : Runtime := {|
  captureStacktrace := λ _ depth,
    match depth with
    | stacktraceFirst => take 1 sampleFrames
    | stacktraceFull => sampleFrames
    end;
  FormatFrame := formatFrame;
  FormatStack := λ fs, String.concat "" (map formatFrame fs);
  FormatUTC := λ _, "1970-01-01 00:00:00 +0000 UTC"
|}.

(** A runtime whose capture yields no frame at all. *)
Definition noFramesRuntime : Runtime := {|
  captureStacktrace := λ _ _, [];
  FormatFrame := formatFrame;
  FormatStack := λ fs, String.concat "" (map formatFrame fs);
  FormatUTC := λ _, "1970-01-01 00:00:00 +0000 UTC"
|}.

(** A logger on a sink that admits Info and above, with caller annotation
    on, stack traces from Error on, and the no-op action as its fatal
    hook. *)
Definition sampleLogger : Logger TestCore Z :=
  mkLogger (LevelCore InfoLevel []) false true
    (Some (ActionHook WriteThenNoop)) "" (Syncer 1) (LevelOf ErrorLevel) 0
    1700000000.

(** A logger named [x] on a sink that admits nothing, in development mode. *)
Definition quietLogger : Logger TestCore Z :=
  mkLogger (LevelCore 6 []) true true None "x" (Syncer 2)
    (LevelOf ErrorLevel) 0 1700000000.

Definition sampleWorld : World TestCore Z :=
  mkWorld {[ 1%positive := sampleLogger; 2%positive := quietLogger ]} [].

(** A logger without caller annotation that wants stacks from Warn on, on a
    sink that admits every level from Debug. *)
Definition stackOnlyLogger : Logger TestCore Z :=
  mkLogger (LevelCore DebugLevel []) false false None "" (Syncer 3)
    (LevelOf WarnLevel) 0 1700000000.

Definition stackWorld : World TestCore Z :=
  mkWorld {[ 1%positive := stackOnlyLogger ]} [].

(* ===================================================================== *)
(** ** The monad and the store *)
(* ===================================================================== *)

Section StoreFacts.
Context {Core Clock : Type}.

Local Abbreviation Logger := (Logger Core Clock).
Local Abbreviation World := (World Core Clock).
Local Abbreviation M := (M Core Clock).

Lemma bind_run {A B} (m : M A) (f : A → M B) (w : World) :
  (m ≫= f) w = match m w with Some (a, w') => f a w' | None => None end.
Proof. reflexivity. Qed.

Lemma ret_run {A} (a : A) (w : World) : (mret a : M A) w = Some (a, w).
Proof. reflexivity. Qed.

Lemma deref_run (l : loc) (L : Logger) (w : World) :
  heap w !! l = Some L → deref l w = Some (L, w).
Proof. intros H. unfold deref. by rewrite H. Qed.

Lemma store_run (l : loc) (L0 L : Logger) (w : World) :
  heap w !! l = Some L0 →
  store l L w = Some (tt, mkWorld (<[l := L]> (heap w)) (trace w)).
Proof. intros H. unfold store. by rewrite H. Qed.

Lemma world_eta (w : World) : mkWorld (heap w) (trace w) = w.
Proof. by destruct w. Qed.
End StoreFacts.

Ltac run_step :=
  first
    [ rewrite bind_run
    | rewrite ret_run
    | erewrite deref_run by eassumption
    | progress cbn [emit heap trace fst snd negb] ].

Ltac run := repeat run_step.

(** Case analysis on the condition of a branch that blocks [run]. *)
Ltac case_cond :=
  match goal with
  | |- context [if ?b then _ else _] =>
      lazymatch type of b with bool => idtac end;
      lazymatch b with
      | context [if _ then _ else _] => fail
      | _ => destruct b eqn:?
      end
  | |- context [match ?l with [] => _ | _ :: _ => _ end] => destruct l eqn:?
  end.

Section CheckFacts.
Context {Core Clock : Type} {sink : Sink Core} {time : TimeSource Clock}
  {rt : Runtime}.

Local Abbreviation Logger := (Logger Core Clock).
Local Abbreviation World := (World Core Clock).

Lemma terminal_Some (L : Logger) (ent : Entry) (c : CheckedEntry) :
  ∃ c1, terminal L ent (Some c) = Some c1 ∧ ceEntry c1 = ceEntry c
        ∧ ceErrorOutput c1 = ceErrorOutput c.
Proof.
  unfold terminal, Should, After.
  repeat case_decide; try destruct (development L); eauto.
Qed.

Lemma check_rejected (log : loc) (L : Logger) (lvl : Level) (msg : string)
    (w : World) :
  heap w !! log = Some L →
  lvl < DPanicLevel →
  Core_Enabled (core L) lvl = false →
  check log lvl msg w
  = Some (None, mkWorld (heap w) (trace w ++ [EvCoreEnabled lvl])).
Proof.
  intros Hl Hlt Hen. unfold check. run.
  rewrite bool_decide_true by done. run. by rewrite Hen.
Qed.

Lemma check_not_admitted (log : loc) (L : Logger) (lvl : Level)
    (msg : string) (w : World) :
  heap w !! log = Some L →
  (lvl < DPanicLevel → Core_Enabled (core L) lvl = true) →
  Core_Check (core L) (entryOf L lvl msg) None = None →
  check log lvl msg w
  = Some (terminal L (entryOf L lvl msg) None,
          mkWorld (heap w) (trace w ++ admissionEvents L lvl msg)).
Proof.
  intros Hl Hen Hc. unfold check, admissionEvents. run.
  fold (entryOf L lvl msg). rewrite Hc.
  rewrite (bool_decide_false (None ≠ None)) by naive_solver.
  case_bool_decide; run.
  - rewrite Hen by done. run. by rewrite <- !app_assoc.
  - by rewrite <- !app_assoc.
Qed.

(** An admitted entry: the record that comes back is the one the terminal
    stage left, with the logger's error output threaded through and, at
    most, caller and stack filled in; the store is not touched. *)
Lemma check_admitted (log : loc) (L : Logger) (lvl : Level) (msg : string)
    (c0 : CheckedEntry) (w : World) :
  heap w !! log = Some L →
  (lvl < DPanicLevel → Core_Enabled (core L) lvl = true) →
  Core_Check (core L) (entryOf L lvl msg) None = Some c0 →
  ∃ c1 ce tr,
    terminal L (entryOf L lvl msg) (Some c0) = Some c1
    ∧ check log lvl msg w
      = Some (Some ce,
              mkWorld (heap w) (trace w ++ admissionEvents L lvl msg ++ tr))
    ∧ ceAfter ce = ceAfter c1
    ∧ ceErrorOutput ce = Some (errorOutput L).
Proof.
  intros Hl Hen Hc.
  destruct (terminal_Some L (entryOf L lvl msg) c0) as (c1 & Ht & _ & _).
  exists c1.
  unfold check, admissionEvents. run.
  fold (entryOf L lvl msg). rewrite Hc, Ht.
  rewrite (bool_decide_true (Some c0 ≠ None)) by done.
  cbn [negb].
  case_bool_decide; run; rewrite ?Hen by done; run;
    repeat first [ run_step | case_cond ];
    eexists _, _; (split; [done|]);
    (split; [do 2 f_equal; rewrite <- ?app_assoc; cbn [app]; reflexivity|]);
    done.
Qed.
Lemma terminal_Panic (L : Logger) (ent : Entry) (ce : option CheckedEntry) :
  EntryLevel ent = PanicLevel →
  terminal L ent ce = After ce ent (ActionHook WriteThenPanic).
Proof. intros H. unfold terminal, Should. by rewrite decide_True. Qed.

Lemma terminal_Fatal (L : Logger) (ent : Entry) (ce : option CheckedEntry) :
  EntryLevel ent = FatalLevel →
  terminal L ent ce = After ce ent (fatalHook L).
Proof.
  intros H. unfold terminal.
  rewrite decide_False by (rewrite H; done). by rewrite decide_True.
Qed.

Lemma terminal_DPanic (L : Logger) (ent : Entry) (ce : option CheckedEntry) :
  EntryLevel ent = DPanicLevel →
  terminal L ent ce
  = if development L then After ce ent (ActionHook WriteThenPanic) else ce.
Proof.
  intros H. unfold terminal, Should.
  rewrite !decide_False by (rewrite H; done). by rewrite decide_True.
Qed.

Lemma After_action (ce : option CheckedEntry) (ent : Entry)
    (hook : CheckWriteHook) (c : CheckedEntry) :
  After ce ent hook = Some c → ceAfter c = Some hook.
Proof. destruct ce; intros [= <-]; done. Qed.

(** ** The terminal actions of the pipeline *)

(** C3: a Panic-level call always comes back with a record whose action is
    [WriteThenPanic]; when the sink's [Check] returned nothing, the record is
    a synthesized one that carries only the entry and that action. *)
Theorem check_Panic_forces_WriteThenPanic (log : loc) (L : Logger)
    (msg : string) (w : World) :
  heap w !! log = Some L →
  ∃ ce w',
    check log PanicLevel msg w = Some (Some ce, w')
    ∧ ceAfter ce = Some (ActionHook WriteThenPanic)
    ∧ (Core_Check (core L) (entryOf L PanicLevel msg) None = None →
       ce = mkCheckedEntry (entryOf L PanicLevel msg) None
              (Some (ActionHook WriteThenPanic))).
Proof.
  intros Hl.
  destruct (Core_Check (core L) (entryOf L PanicLevel msg) None)
    as [c0|] eqn:Hc.
  - destruct (check_admitted log L PanicLevel msg c0 w Hl)
      as (c1 & ce & tr & Ht & Hrun & Ha & _); [done|done|].
    rewrite terminal_Panic in Ht by done.
    exists ce. eexists. split; [exact Hrun|]. split; [|done].
    rewrite Ha. by eapply After_action.
  - eexists _, _. split.
    + rewrite (check_not_admitted log L) by done.
      rewrite terminal_Panic by done. reflexivity.
    + done.
Qed.

(** C1: a Fatal-level call always comes back with a record; its action is
    the logger's [onFatal] hook, except that a nil hook and [WriteThenNoop]
    are replaced by [WriteThenFatal]; when the sink's [Check] returned
    nothing, the record is a synthesized one that carries only the entry and
    the action. *)
Theorem check_Fatal_action (log : loc) (L : Logger) (msg : string)
    (w : World) :
  heap w !! log = Some L →
  ∃ ce w',
    check log FatalLevel msg w = Some (Some ce, w')
    ∧ (onFatal L = None → ceAfter ce = Some (ActionHook WriteThenFatal))
    ∧ (onFatal L = Some (ActionHook WriteThenNoop) →
       ceAfter ce = Some (ActionHook WriteThenFatal))
    ∧ (∀ hook, onFatal L = Some hook → hook ≠ ActionHook WriteThenNoop →
       ceAfter ce = Some hook)
    ∧ (Core_Check (core L) (entryOf L FatalLevel msg) None = None →
       ce = mkCheckedEntry (entryOf L FatalLevel msg) None (ceAfter ce)).
Proof.
  intros Hl.
  assert (Hres : ∀ ce, ceAfter ce = Some (fatalHook L) →
    (onFatal L = None → ceAfter ce = Some (ActionHook WriteThenFatal))
    ∧ (onFatal L = Some (ActionHook WriteThenNoop) →
       ceAfter ce = Some (ActionHook WriteThenFatal))
    ∧ (∀ hook, onFatal L = Some hook → hook ≠ ActionHook WriteThenNoop →
       ceAfter ce = Some hook)).
  { intros ce ->. unfold fatalHook. repeat split.
    - by intros ->.
    - intros ->. by rewrite decide_True.
    - intros hook -> Hne. by rewrite decide_False. }
  destruct (Core_Check (core L) (entryOf L FatalLevel msg) None)
    as [c0|] eqn:Hc.
  - destruct (check_admitted log L FatalLevel msg c0 w Hl)
      as (c1 & ce & tr & Ht & Hrun & Ha & _); [done|done|].
    rewrite terminal_Fatal in Ht by done.
    exists ce. eexists. split; [exact Hrun|].
    destruct (Hres ce) as (H1 & H2 & H3).
    { rewrite Ha. by eapply After_action. }
    repeat split; done.
  - eexists _, _. split.
    + rewrite (check_not_admitted log L) by done.
      rewrite terminal_Fatal by done. reflexivity.
    + destruct (Hres (mkCheckedEntry (entryOf L FatalLevel msg) None
                        (Some (fatalHook L)))) as (H1 & H2 & H3); [done|].
      repeat split; done.
Qed.

(** C6: at DPanic level the development flag decides.  With the flag set the
    record always exists and its action is [WriteThenPanic] (a synthesized
    record when the sink's [Check] returned nothing).  With the flag unset
    nothing is forced: no record comes back when the sink returned none, and
    otherwise the record keeps the action the sink gave it. *)
Theorem check_DPanic_development (log : loc) (L : Logger) (msg : string)
    (w : World) :
  heap w !! log = Some L →
  (development L = true →
   ∃ ce w',
     check log DPanicLevel msg w = Some (Some ce, w')
     ∧ ceAfter ce = Some (ActionHook WriteThenPanic)
     ∧ (Core_Check (core L) (entryOf L DPanicLevel msg) None = None →
        ce = mkCheckedEntry (entryOf L DPanicLevel msg) None
               (Some (ActionHook WriteThenPanic))))
  ∧ (development L = false →
     (Core_Check (core L) (entryOf L DPanicLevel msg) None = None →
      ∃ w', check log DPanicLevel msg w = Some (None, w'))
     ∧ (∀ c0, Core_Check (core L) (entryOf L DPanicLevel msg) None = Some c0 →
        ∃ ce w', check log DPanicLevel msg w = Some (Some ce, w')
                 ∧ ceAfter ce = ceAfter c0)).
Proof.
  intros Hl. split; intros Hdev.
  - destruct (Core_Check (core L) (entryOf L DPanicLevel msg) None)
      as [c0|] eqn:Hc.
    + destruct (check_admitted log L DPanicLevel msg c0 w Hl)
        as (c1 & ce & tr & Ht & Hrun & Ha & _); [done|done|].
      rewrite terminal_DPanic, Hdev in Ht by done.
      exists ce. eexists. split; [exact Hrun|]. split; [|done].
      rewrite Ha. by eapply After_action.
    + eexists _, _. split.
      * rewrite (check_not_admitted log L) by done.
        rewrite terminal_DPanic, Hdev by done. reflexivity.
      * done.
  - split.
    + intros Hc. eexists.
      rewrite (check_not_admitted log L) by done.
      rewrite terminal_DPanic, Hdev by done. reflexivity.
    + intros c0 Hc.
      destruct (check_admitted log L DPanicLevel msg c0 w Hl)
        as (c1 & ce & tr & Ht & Hrun & Ha & _); [done|done|].
      rewrite terminal_DPanic, Hdev in Ht by done.
      injection Ht as <-. eauto.
Qed.

(** C2: below DPanic, a level the sink reports disabled is rejected at once:
    nothing is returned, the store is left alone, and the only call made is
    the query of [Enabled]: no clock reading, no entry given to the sink's
    [Check], no stack capture. *)
Theorem check_disabled_fast_rejection (log : loc) (L : Logger) (lvl : Level)
    (msg : string) (w : World) :
  heap w !! log = Some L →
  lvl < DPanicLevel →
  Core_Enabled (core L) lvl = false →
  ∃ w',
    check log lvl msg w = Some (None, w')
    ∧ heap w' = heap w
    ∧ trace w' = trace w ++ [EvCoreEnabled lvl].
Proof.
  intros Hl Hlt Hen. eexists. split; [by eapply check_rejected|]. done.
Qed.
(** ** Records that carry no write, and failed captures *)

(** C7: when the sink's [Check] returns nothing, what [check] returns is
    either nothing or the synthesized record as it is: no error output
    attached, the entry as built (no caller, no stack), whatever [addCaller]
    and [addStack] say; the only calls made are those of the admission
    itself, so no stack is captured and nothing is printed. *)
Theorem check_no_write_no_annotation (log : loc) (L : Logger) (lvl : Level)
    (msg : string) (w : World) :
  heap w !! log = Some L →
  Core_Check (core L) (entryOf L lvl msg) None = None →
  ∃ r w' tr,
    check log lvl msg w = Some (r, w')
    ∧ r = terminal L (entryOf L lvl msg) None
    ∧ (r = None
       ∨ ∃ hook,
           r = Some (mkCheckedEntry (entryOf L lvl msg) None (Some hook)))
    ∧ heap w' = heap w
    ∧ trace w' = trace w ++ tr
    ∧ (∀ e, e ∈ tr →
         e = EvCoreEnabled lvl ∨ e = EvClockNow
         ∨ e = EvCoreCheck (entryOf L lvl msg)).
Proof.
  intros Hl Hc.
  destruct (decide (lvl < DPanicLevel ∧ Core_Enabled (core L) lvl = false))
    as [[Hlt Hen]|Hn].
  - eexists _, _, _. split; [by eapply check_rejected|].
    split.
    { unfold terminal. cbn [EntryLevel entryOf].
      rewrite !decide_False; [done|..];
        unfold DPanicLevel, PanicLevel, FatalLevel in *; lia. }
    split; [by left|]. split; [done|]. split; [done|].
    intros e [->|He]%elem_of_cons; [by left|]. by apply elem_of_nil in He.
  - eexists _, _, _. split.
    { eapply check_not_admitted; [done| |done].
      intros Hlt. destruct (Core_Enabled (core L) lvl); [done|].
      exfalso. by apply Hn. }
    split; [done|].
    split.
    { unfold terminal, Should, After.
      repeat case_decide; try destruct (development L); eauto. }
    split; [done|]. split; [done|].
    unfold admissionEvents. intros e He.
    case_bool_decide; cbn [app] in He;
      repeat (apply elem_of_cons in He as [->|He]; [tauto|]);
      by apply elem_of_nil in He.
Qed.

(** C9: caller annotation is on, the entry is admitted and will be written,
    and the capture yields no frame.  Then [check] prints one message to the
    logger's error output (and syncs it), releases the capture, and returns
    the record with the error output attached and neither caller nor stack
    filled in; it does not panic. *)
Theorem check_no_frames_one_report (log : loc) (L : Logger) (lvl : Level)
    (msg : string) (c0 : CheckedEntry) (w : World) :
  heap w !! log = Some L →
  addCaller L = true →
  (lvl < DPanicLevel → Core_Enabled (core L) lvl = true) →
  Core_Check (core L) (entryOf L lvl msg) None = Some c0 →
  (∀ depth,
     captureStacktrace (int_add (callerSkip L) callerSkipOffset) depth = []) →
  ∃ ce depth,
    let report :=
      EvFprintf (errorOutput L)
        (FormatUTC (Clock_Now (clock L))
         +:+ " Logger.check error: failed to get caller" +:+ newline) in
    let tr :=
      admissionEvents L lvl msg
      ++ [EvCapture (int_add (callerSkip L) callerSkipOffset) depth;
          report; EvSync (errorOutput L); EvStackFree] in
    check log lvl msg w = Some (Some ce, mkWorld (heap w) (trace w ++ tr))
    ∧ countReports (errorOutput L) tr = 1%nat
    ∧ ceErrorOutput ce = Some (errorOutput L)
    ∧ Caller (ceEntry ce) = Caller (ceEntry c0)
    ∧ Stack (ceEntry ce) = Stack (ceEntry c0).
Proof.
  intros Hl Hcaller Hen Hc Hcap.
  destruct (terminal_Some L (entryOf L lvl msg) c0) as (c1 & Ht & He & _).
  exists (set_ErrorOutput c1 (errorOutput L)).
  exists (if LevelEnabler_Enabled (addStack L) (EntryLevel (ceEntry c1))
          then stacktraceFull else stacktraceFirst).
  cbn zeta. split; [|split; [|split; [done|by rewrite <- He]]].
  - unfold check, admissionEvents. run.
    fold (entryOf L lvl msg). rewrite Hc, Ht.
    rewrite (bool_decide_true (Some c0 ≠ None)) by done.
    rewrite Hcaller. cbn [negb andb set_ErrorOutput ceEntry].
    case_bool_decide; run; rewrite ?Hen by done; run;
      rewrite Hcap; run; rewrite <- ?app_assoc; reflexivity.
  - unfold admissionEvents.
    case_bool_decide; cbn; by rewrite decide_True.
Qed.
End CheckFacts.

(* ===================================================================== *)
(** ** Snapshots and option composition *)
(* ===================================================================== *)

Lemma append_assoc (a b c : string) : (a +:+ b) +:+ c = a +:+ b +:+ c.
Proof.
  induction a as [|x a IH]; [done|].
  change (String x ((a +:+ b) +:+ c) = String x (a +:+ b +:+ c)).
  by rewrite IH.
Qed.

Lemma wrap_int_idemp_l (a b : Z) : wrap_int (wrap_int a + b) = wrap_int (a + b).
Proof.
  unfold wrap_int. f_equal.
  replace ((a + 2 ^ 63) `mod` 2 ^ 64 - 2 ^ 63 + b + 2 ^ 63)
    with ((a + 2 ^ 63) `mod` 2 ^ 64 + b) by lia.
  rewrite Zplus_mod_idemp_l. f_equal. lia.
Qed.

Lemma wrap_int_idemp_r (a b : Z) : wrap_int (a + wrap_int b) = wrap_int (a + b).
Proof. rewrite (Z.add_comm a), wrap_int_idemp_l. f_equal. lia. Qed.

Lemma wrap_int_small (a : Z) : - 2 ^ 63 ≤ a < 2 ^ 63 → wrap_int a = a.
Proof. intros H. unfold wrap_int. rewrite Z.mod_small; lia. Qed.

Section CompositionFacts.
Context {Core Clock : Type} {sink : Sink Core} {time : TimeSource Clock}
  {rt : Runtime}.

Local Abbreviation Logger := (Logger Core Clock).
Local Abbreviation World := (World Core Clock).
Local Abbreviation M := (M Core Clock).

Lemma clone_run (log : loc) (L : Logger) (w : World) :
  heap w !! log = Some L →
  clone log w
  = Some (fresh (dom (heap w)),
          mkWorld (<[fresh (dom (heap w)) := L]> (heap w)) (trace w)).
Proof. intros Hl. unfold clone. run. reflexivity. Qed.

Lemma fresh_lookup (w : World) : heap w !! fresh (dom (heap w)) = None.
Proof. apply not_elem_of_dom, is_fresh. Qed.

Lemma apply_run (opt : Option) (c : loc) (L : Logger) (w : World) :
  heap w !! c = Some L →
  ∃ tr, apply opt c w
        = Some (tt, mkWorld (<[c := applied L opt]> (heap w)) (trace w ++ tr)).
Proof.
  intros Hc. unfold apply. run.
  destruct opt; cbn [applied];
    try (exists []; erewrite store_run by eassumption;
         by rewrite app_nil_r).
  destruct (NewIncreaseLevelCore (core L) lvl) as [c'|err].
  - exists []. erewrite store_run by eassumption. by rewrite app_nil_r.
  - eexists. cbn [emit]. by rewrite insert_id.
Qed.

Lemma applyAll_run (opts : list Option) (c : loc) (L : Logger) (w : World) :
  heap w !! c = Some L →
  ∃ tr, applyAll opts c w
        = Some (tt, mkWorld (<[c := foldl applied L opts]> (heap w))
                      (trace w ++ tr)).
Proof.
  revert L w. induction opts as [|opt opts IH]; intros L w Hc.
  - exists []. cbn. rewrite ret_run, insert_id, app_nil_r by done.
    by rewrite world_eta.
  - cbn [applyAll foldl]. rewrite bind_run.
    destruct (apply_run opt c L w Hc) as [tr1 ->].
    destruct (IH (applied L opt)
                (mkWorld (<[c := applied L opt]> (heap w)) (trace w ++ tr1)))
      as [tr2 ->].
    { cbn. by rewrite lookup_insert_eq. }
    exists (tr1 ++ tr2). cbn [heap trace].
    by rewrite insert_insert_eq, app_assoc.
Qed.

Lemma applyAll_app (opts1 opts2 : list Option) (c : loc) (w : World) :
  applyAll (opts1 ++ opts2) c w = (applyAll opts1 c;; applyAll opts2 c) w.
Proof.
  revert w. induction opts1 as [|opt opts1 IH]; intros w; cbn [app applyAll].
  - by rewrite bind_run, ret_run.
  - rewrite !bind_run. destruct (apply opt c w) as [[[] w1]|]; [|done].
    by rewrite IH, bind_run.
Qed.

Lemma WithOptions_run (log : loc) (opts : list Option) (L : Logger)
    (w : World) :
  heap w !! log = Some L →
  ∃ tr, WithOptions log opts w
        = Some (fresh (dom (heap w)),
                mkWorld (<[fresh (dom (heap w)) := foldl applied L opts]>
                           (heap w))
                  (trace w ++ tr)).
Proof.
  intros Hl. unfold WithOptions. rewrite bind_run.
  erewrite clone_run by eassumption. rewrite bind_run.
  edestruct (applyAll_run opts (fresh (dom (heap w))) L) as [tr ->].
  { cbn. by rewrite lookup_insert_eq. }
  exists tr. cbn [heap trace]. by rewrite ret_run, insert_insert_eq.
Qed.

Lemma issued_WithOptions (log : loc) (opts : list Option) (L : Logger)
    (w : World) :
  heap w !! log = Some L →
  issued (WithOptions log opts) w = Some (foldl applied L opts).
Proof.
  intros Hl. unfold issued.
  destruct (WithOptions_run log opts L w Hl) as [tr ->].
  cbn. by rewrite lookup_insert_eq.
Qed.
Lemma fresh_ne (log : loc) (L : Logger) (w : World) :
  heap w !! log = Some L → fresh (dom (heap w)) ≠ log.
Proof. intros Hl Heq. by rewrite <- Heq, fresh_lookup in Hl. Qed.

Lemma Named_run (log : loc) (s : string) (L : Logger) (w : World) :
  heap w !! log = Some L →
  s ≠ "" →
  Named log s w
  = Some (fresh (dom (heap w)),
          mkWorld (<[fresh (dom (heap w)) := set_name L (joined (name L) s)]>
                     (heap w))
            (trace w)).
Proof.
  intros Hl Hs. unfold Named. rewrite decide_False by done.
  rewrite bind_run. erewrite clone_run by eassumption.
  pose proof (fresh_ne log L w Hl) as Hne.
  rewrite bind_run. unfold deref at 1. cbn [heap].
  rewrite lookup_insert_ne, Hl by done.
  rewrite bind_run. unfold deref at 1. cbn [heap].
  rewrite lookup_insert_eq. rewrite bind_run. unfold joined.
  case_decide; (erewrite store_run by (cbn; apply lookup_insert_eq));
    cbn [heap trace]; by rewrite ret_run, insert_insert_eq.
Qed.

Lemma With_run (log : loc) (fields : list Field) (L : Logger) (w : World) :
  heap w !! log = Some L →
  fields ≠ [] →
  With log fields w
  = Some (fresh (dom (heap w)),
          mkWorld (<[fresh (dom (heap w))
                     := set_core L (Core_With (core L) fields)]> (heap w))
            (trace w)).
Proof.
  intros Hl Hf. unfold With.
  rewrite decide_False by (by destruct fields).
  rewrite bind_run. erewrite clone_run by eassumption.
  rewrite bind_run. unfold deref at 1. cbn [heap].
  rewrite lookup_insert_eq. rewrite bind_run.
  erewrite store_run by (cbn; apply lookup_insert_eq).
  cbn [heap trace]. by rewrite ret_run, insert_insert_eq.
Qed.

Lemma Sugar_run (log : loc) (L : Logger) (w : World) :
  heap w !! log = Some L →
  Sugar log w
  = Some (mkSugaredLogger (fresh (dom (heap w))),
          mkWorld (<[fresh (dom (heap w))
                     := set_callerSkip L (int_add (callerSkip L) 2)]> (heap w))
            (trace w)).
Proof.
  intros Hl. unfold Sugar.
  rewrite bind_run. erewrite clone_run by eassumption.
  rewrite bind_run. unfold deref at 1. cbn [heap].
  rewrite lookup_insert_eq. rewrite bind_run.
  erewrite store_run by (cbn; apply lookup_insert_eq).
  cbn [heap trace]. by rewrite ret_run, insert_insert_eq.
Qed.

(** [check] reads the store only at its receiver. *)
Lemma check_frame (log : loc) (lvl : Level) (msg : string) (w1 w2 : World) :
  heap w1 !! log = heap w2 !! log →
  fst <$> check log lvl msg w1 = fst <$> check log lvl msg w2.
Proof.
  intros Heq. unfold check. rewrite !bind_run. unfold deref.
  rewrite <- Heq. destruct (heap w1 !! log) as [L|]; [|done].
  repeat first
    [ run_step
    | case_cond
    | match goal with
      | |- context [match terminal ?a ?b ?c with _ => _ end] =>
          destruct (terminal a b c) eqn:?
      end ];
    done.
Qed.
Lemma alloc_subseteq (L' : Logger) (w : World) :
  heap w ⊆ <[fresh (dom (heap w)) := L']> (heap w).
Proof. apply insert_subseteq, fresh_lookup. Qed.

Lemma fresh_not_in (w : World) : fresh (dom (heap w)) ∉ dom (heap w).
Proof. apply is_fresh. Qed.

(** C4, as the code has it: [Named], [With], [WithOptions] and [Sugar] leave
    the receiver and every logger issued before exactly as they were.
    [Named] with an empty segment and [With] without fields hand back the
    receiver itself and change nothing; in every other case the result is a
    logger at a new address, the receiver's copy with the name (resp. the
    sink, the caller skip, what the options change one after the other)
    altered.  A call
    of [check] through the receiver after [With] returns what it returned
    before. *)
Theorem configuration_leaves_receiver (log : loc) (L : Logger) (w : World) :
  heap w !! log = Some L →
  (∀ s, ∃ r w',
     Named log s w = Some (r, w')
     ∧ heap w' !! log = Some L ∧ (heap w ⊆ heap w')
     ∧ (if decide (s = "") then r = log ∧ w' = w
        else (r ∉ dom (heap w))
             ∧ heap w' !! r = Some (set_name L (joined (name L) s))))
  ∧ (∀ fields, ∃ r w',
       With log fields w = Some (r, w')
       ∧ heap w' !! log = Some L ∧ (heap w ⊆ heap w')
       ∧ (∀ lvl msg,
            fst <$> check log lvl msg w' = fst <$> check log lvl msg w)
       ∧ match fields with
         | [] => r = log ∧ w' = w
         | _ :: _ =>
             (r ∉ dom (heap w))
             ∧ heap w' !! r = Some (set_core L (Core_With (core L) fields))
         end)
  ∧ (∀ opts, ∃ r w',
       WithOptions log opts w = Some (r, w')
       ∧ heap w' !! log = Some L ∧ (heap w ⊆ heap w')
       ∧ (r ∉ dom (heap w))
       ∧ heap w' !! r = Some (foldl applied L opts))
  ∧ (∃ r w',
       Sugar log w = Some (r, w')
       ∧ heap w' !! log = Some L ∧ (heap w ⊆ heap w')
       ∧ (base r ∉ dom (heap w))
       ∧ heap w' !! base r
         = Some (set_callerSkip L (int_add (callerSkip L) 2))).
Proof.
  intros Hl.
  pose proof (fresh_ne log L w Hl) as Hne.
  split; [|split; [|split]].
  - intros s. destruct (decide (s = "")) as [->|Hs].
    + exists log, w. unfold Named. rewrite decide_True by done.
      rewrite ret_run. done.
    + eexists _, _. split; [by apply Named_run|]. cbn [heap].
      split; [by rewrite lookup_insert_ne|].
      split; [apply alloc_subseteq|].
      split; [apply fresh_not_in|apply lookup_insert_eq].
  - intros [|f fields].
    + exists log, w. unfold With. rewrite decide_True by done.
      rewrite ret_run. done.
    + eexists _, _. split; [by apply With_run|]. cbn [heap].
      split; [by rewrite lookup_insert_ne|].
      split; [apply alloc_subseteq|].
      split.
      { intros lvl msg. apply check_frame. cbn [heap].
        by rewrite lookup_insert_ne. }
      split; [apply fresh_not_in|apply lookup_insert_eq].
  - intros opts. destruct (WithOptions_run log opts L w Hl) as [tr Hrun].
    eexists _, _. split; [exact Hrun|]. cbn [heap].
    split; [by rewrite lookup_insert_ne|].
    split; [apply alloc_subseteq|].
    split; [apply fresh_not_in|].
    apply lookup_insert_eq.
  - eexists _, _. split; [by apply Sugar_run|]. cbn [heap base].
    split; [by rewrite lookup_insert_ne|].
    split; [apply alloc_subseteq|].
    split; [apply fresh_not_in|apply lookup_insert_eq].
Qed.

(** C5, as the code has it: [Named] appends the segment to the name the
    receiver already has, with a period in between, or takes the segment as
    the name when the receiver has none.  So two segments [a] and [b] give
    [a.b] on an unnamed logger and [n.a.b] on a logger named [n]; and
    [Named] with the empty segment returns its receiver and does nothing. *)
Theorem Named_joins_with_period (log : loc) (L : Logger) (w : World) :
  heap w !! log = Some L →
  (∀ a b, a ≠ "" → b ≠ "" →
     name <$> issued (la ← Named log a; Named la b) w
     = Some (if decide (name L = "") then a +:+ "." +:+ b
             else name L +:+ "." +:+ a +:+ "." +:+ b))
  ∧ (∀ s, name L = "" → name <$> issued (Named log s) w = Some s)
  ∧ Named log "" w = Some (log, w).
Proof.
  intros Hl. split; [|split].
  - intros a b Ha Hb. unfold issued. rewrite bind_run.
    rewrite (Named_run log a L w) by done.
    erewrite Named_run; [|cbn; apply lookup_insert_eq|done].
    cbn [heap]. rewrite lookup_insert_eq. cbn. f_equal.
    unfold joined. destruct (decide (name L = "")) as [Hn|Hn].
    + by rewrite decide_False.
    + rewrite decide_False.
      * by rewrite !append_assoc.
      * destruct (name L); [done|discriminate].
  - intros s Hn. unfold issued.
    destruct (decide (s = "")) as [->|Hs].
    + unfold Named. rewrite decide_True by done. rewrite ret_run, Hl.
      cbn. by rewrite Hn.
    + rewrite (Named_run log s L w) by done. cbn [heap].
      rewrite lookup_insert_eq. cbn. unfold joined.
      by rewrite decide_True.
  - unfold Named. by rewrite decide_True.
Qed.

(** C8: [WithOptions] makes one copy of the receiver and applies the options
    to it from left to right: the options of a list [opts1 ++ opts2] act as
    those of [opts2] applied to the copy that [opts1] already changed.  An
    option that assigns a field wins over all options before it, and
    [AddCallerSkip] accumulates: [AddCallerSkip m] then [AddCallerSkip n]
    raise the receiver's count by [m + n] (in Go's [int] arithmetic, and
    exactly when the sum is in range). *)
Theorem WithOptions_in_order (log : loc) (L : Logger) (w : World) :
  heap w !! log = Some L →
  (∀ opts, ∃ c Lc tr,
     WithOptions log opts w
     = Some (c, mkWorld (<[c := Lc]> (heap w)) (trace w ++ tr))
     ∧ c ∉ dom (heap w))
  ∧ (∀ opts1 opts2,
       WithOptions log (opts1 ++ opts2) w
       = (c ← WithOptions log opts1; applyAll opts2 c;; mret c) w)
  ∧ (∀ opts v,
       errorOutput <$> issued (WithOptions log (opts ++ [ErrorOutput v])) w
       = Some v)
  ∧ (∀ opts v,
       addCaller <$> issued (WithOptions log (opts ++ [WithCaller v])) w
       = Some v)
  ∧ (∀ opts v,
       addStack <$> issued (WithOptions log (opts ++ [AddStacktrace v])) w
       = Some v)
  ∧ (∀ opts v,
       onFatal <$> issued (WithOptions log (opts ++ [WithFatalHook v])) w
       = Some v)
  ∧ (∀ opts v,
       clock <$> issued (WithOptions log (opts ++ [WithClock v])) w
       = Some v)
  ∧ (∀ m n,
       callerSkip
         <$> issued (WithOptions log [AddCallerSkip m; AddCallerSkip n]) w
       = Some (int_add (callerSkip L) (int_add m n)))
  ∧ (∀ m n,
       - 2 ^ 63 ≤ callerSkip L + (m + n) < 2 ^ 63 →
       callerSkip
         <$> issued (WithOptions log [AddCallerSkip m; AddCallerSkip n]) w
       = Some (callerSkip L + (m + n))).
Proof.
  intros Hl.
  assert (Hskip : ∀ m n,
    callerSkip
      <$> issued (WithOptions log [AddCallerSkip m; AddCallerSkip n]) w
    = Some (int_add (callerSkip L) (int_add m n))).
  { intros m n. rewrite (issued_WithOptions log _ L w Hl). cbn. f_equal.
    unfold int_add. rewrite wrap_int_idemp_l, wrap_int_idemp_r.
    f_equal. lia. }
  repeat split.
  - intros opts. destruct (WithOptions_run log opts L w Hl) as [tr Hrun].
    eexists _, _, _. split; [exact Hrun|apply fresh_not_in].
  - intros opts1 opts2. unfold WithOptions. rewrite !bind_run.
    destruct (clone log w) as [[c w1]|]; [|done].
    rewrite !bind_run, applyAll_app, bind_run.
    destruct (applyAll opts1 c w1) as [[[] w2]|]; [|done].
    by rewrite ret_run, bind_run.
  - intros opts v. rewrite (issued_WithOptions log _ L w Hl).
    by rewrite foldl_app.
  - intros opts v. rewrite (issued_WithOptions log _ L w Hl).
    by rewrite foldl_app.
  - intros opts v. rewrite (issued_WithOptions log _ L w Hl).
    by rewrite foldl_app.
  - intros opts v. rewrite (issued_WithOptions log _ L w Hl).
    by rewrite foldl_app.
  - intros opts v. rewrite (issued_WithOptions log _ L w Hl).
    by rewrite foldl_app.
  - exact Hskip.
  - intros m n Hr. rewrite Hskip. f_equal. unfold int_add.
    rewrite wrap_int_idemp_r. by apply wrap_int_small.
Qed.

(** C10: with a nil core, [New] is [NewNop] whatever the options: it returns
    a pointer to a new logger whose sink is the no-op sink and whose error
    output discards; none of the options has been applied to it. *)
Theorem New_nil_core_is_NewNop (options : list Option) (w : World) :
  New None options w = NewNop w
  ∧ ∃ l,
      New None options w
      = Some (l, mkWorld
                   (<[l := mkLogger NewNopCore false false None "" Discard
                             (LevelOf 6) 0 DefaultClock]> (heap w))
                   (trace w))
      ∧ l ∉ dom (heap w).
Proof.
  split; [done|]. exists (fresh (dom (heap w))).
  split; [done|apply fresh_not_in].
Qed.
End CompositionFacts.

(* ===================================================================== *)
(** ** Further properties of the pipeline *)
(* ===================================================================== *)

Section PipelineFacts.
Context {Core Clock : Type} {sink : Sink Core} {time : TimeSource Clock}
  {rt : Runtime}.

Local Abbreviation Logger := (Logger Core Clock).
Local Abbreviation World := (World Core Clock).

(** An admitted entry, in full: the record and the calls of [annotate]. *)
Lemma check_admitted_run (log : loc) (L : Logger) (lvl : Level)
    (msg : string) (c0 c1 : CheckedEntry) (w : World) :
  heap w !! log = Some L →
  (lvl < DPanicLevel → Core_Enabled (core L) lvl = true) →
  Core_Check (core L) (entryOf L lvl msg) None = Some c0 →
  terminal L (entryOf L lvl msg) (Some c0) = Some c1 →
  check log lvl msg w
  = Some (Some (annotate L c1).1,
          mkWorld (heap w)
            (trace w ++ admissionEvents L lvl msg ++ (annotate L c1).2)).
Proof.
  intros Hl Hen Hc Ht.
  unfold check, admissionEvents, annotate, captureDepth, captureSkip,
    noCallerReport, wantsStack.
  run. fold (entryOf L lvl msg). rewrite Hc, Ht.
  rewrite (bool_decide_true (Some c0 ≠ None)) by done.
  cbn [negb set_ErrorOutput ceEntry entryOf EntryTime].
  case_bool_decide; run; rewrite ?Hen by done; run;
    repeat first [ run_step | case_cond ];
    rewrite <- ?app_assoc; cbn [app]; reflexivity.
Qed.

Lemma terminal_keeps_entry (L : Logger) (ent : Entry) (c0 c1 : CheckedEntry) :
  terminal L ent (Some c0) = Some c1 →
  ceEntry c1 = ceEntry c0 ∧ ceErrorOutput c1 = ceErrorOutput c0.
Proof.
  destruct (terminal_Some L ent c0) as (c & Hc & He & Ho).
  rewrite Hc. by intros [= <-].
Qed.

Lemma terminal_ordinary (L : Logger) (ent : Entry) (ce : option CheckedEntry) :
  EntryLevel ent ≠ DPanicLevel → EntryLevel ent ≠ PanicLevel →
  EntryLevel ent ≠ FatalLevel →
  terminal L ent ce = ce.
Proof. intros H1 H2 H3. unfold terminal. by rewrite !decide_False. Qed.

(** Whether the fast path of [check] applies. *)
Lemma rejected_or_not (L : Logger) (lvl : Level) :
  (lvl < DPanicLevel ∧ Core_Enabled (core L) lvl = false)
  ∨ (lvl < DPanicLevel → Core_Enabled (core L) lvl = true).
Proof.
  destruct (decide (lvl < DPanicLevel)) as [Hlt|Hge]; [|by right].
  destruct (Core_Enabled (core L) lvl); [by right|by left].
Qed.

Lemma annotate_entry (L : Logger) (c1 : CheckedEntry) :
  LoggerName (ceEntry (annotate L c1).1) = LoggerName (ceEntry c1)
  ∧ EntryTime (ceEntry (annotate L c1).1) = EntryTime (ceEntry c1)
  ∧ EntryLevel (ceEntry (annotate L c1).1) = EntryLevel (ceEntry c1)
  ∧ Message (ceEntry (annotate L c1).1) = Message (ceEntry c1)
  ∧ ceAfter (annotate L c1).1 = ceAfter c1
  ∧ ceErrorOutput (annotate L c1).1 = Some (errorOutput L).
Proof.
  unfold annotate, captureDepth, wantsStack.
  repeat first [ case_cond | progress cbn ]; done.
Qed.

(** Past the level switch, [check] changes neither the action nor whether
    there is a record. *)
Lemma check_action (log : loc) (L : Logger) (lvl : Level) (msg : string)
    (w : World) :
  heap w !! log = Some L →
  (lvl < DPanicLevel → Core_Enabled (core L) lvl = true) →
  ∃ r tr,
    check log lvl msg w = Some (r, mkWorld (heap w) (trace w ++ tr))
    ∧ ceAfter <$> r
      = ceAfter <$> terminal L (entryOf L lvl msg)
                      (Core_Check (core L) (entryOf L lvl msg) None).
Proof.
  intros Hl Hen.
  destruct (Core_Check (core L) (entryOf L lvl msg) None) as [c0|] eqn:Hc.
  - destruct (terminal_Some L (entryOf L lvl msg) c0) as (c1 & Ht & _).
    eexists _, _. split; [by eapply check_admitted_run|].
    rewrite Ht. cbn. f_equal. apply annotate_entry.
  - eexists _, _. split; [by eapply check_not_admitted|done].
Qed.


(** X2: every capture session [check] opens is released before it returns,
    and so is the scratch buffer: in the calls of one [check] there is at
    most one capture, as many releases as captures, as many buffer releases
    as buffer acquisitions, and after a capture the last call is the release
    of the session. *)
Theorem check_releases_what_it_acquires (log : loc) (L : Logger)
    (lvl : Level) (msg : string) (w : World) :
  heap w !! log = Some L →
  ∃ r tr,
    check log lvl msg w = Some (r, mkWorld (heap w) (trace w ++ tr))
    ∧ (countIf isCapture tr ≤ 1)%nat
    ∧ countIf isStackFree tr = countIf isCapture tr
    ∧ countIf isBufferFree tr = countIf isBufferGet tr
    ∧ (countIf isCapture tr = 1%nat → last tr = Some EvStackFree).
Proof.
  intros Hl. destruct (rejected_or_not L lvl) as [[Hlt Hen]|Hen].
  { eexists _, _. split; [by eapply check_rejected|]. cbn. repeat split; lia. }
  destruct (Core_Check (core L) (entryOf L lvl msg) None) as [c0|] eqn:Hc.
  - destruct (terminal_Some L (entryOf L lvl msg) c0) as (c1 & Ht & _).
    eexists _, _. split; [by eapply check_admitted_run|].
    unfold admissionEvents, annotate.
    repeat first [ case_bool_decide | case_cond ]; cbn;
      repeat split; (lia || done).
  - eexists _, _. split; [by eapply check_not_admitted|].
    unfold admissionEvents. case_bool_decide; cbn; repeat split; lia.
Qed.

(** X3: an admitted entry on a logger that asks neither for the caller nor
    for a stack at the record's level costs no capture: the calls are those
    of the admission alone, and the record comes back with the sink's entry
    untouched and the logger's error output. *)
Theorem check_without_annotation_request (log : loc) (L : Logger)
    (lvl : Level) (msg : string) (c0 : CheckedEntry) (w : World) :
  heap w !! log = Some L →
  (lvl < DPanicLevel → Core_Enabled (core L) lvl = true) →
  Core_Check (core L) (entryOf L lvl msg) None = Some c0 →
  addCaller L = false →
  LevelEnabler_Enabled (addStack L) (EntryLevel (ceEntry c0)) = false →
  ∃ ce,
    check log lvl msg w
    = Some (Some ce,
            mkWorld (heap w) (trace w ++ admissionEvents L lvl msg))
    ∧ ceEntry ce = ceEntry c0
    ∧ ceErrorOutput ce = Some (errorOutput L).
Proof.
  intros Hl Hen Hc Hcaller Hstack.
  destruct (terminal_Some L (entryOf L lvl msg) c0) as (c1 & Ht & He & _).
  exists (set_ErrorOutput c1 (errorOutput L)).
  rewrite (check_admitted_run log L lvl msg c0 c1 w) by done.
  unfold annotate, wantsStack. rewrite He, Hcaller, Hstack. cbn.
  by rewrite app_nil_r.
Qed.

(** X4: when the caller or a stack is asked for, an admitted entry opens
    exactly one capture, first thing after the admission; it skips the
    logger's [callerSkip] plus two frames, and its depth is the full stack
    exactly when a stack is wanted at the record's level. *)
Theorem check_capture_request (log : loc) (L : Logger) (lvl : Level)
    (msg : string) (c0 : CheckedEntry) (w : World) :
  heap w !! log = Some L →
  (lvl < DPanicLevel → Core_Enabled (core L) lvl = true) →
  Core_Check (core L) (entryOf L lvl msg) None = Some c0 →
  addCaller L = true
  ∨ LevelEnabler_Enabled (addStack L) (EntryLevel (ceEntry c0)) = true →
  ∃ ce tr,
    check log lvl msg w
    = Some (Some ce,
            mkWorld (heap w)
              (trace w ++ admissionEvents L lvl msg
               ++ EvCapture (int_add (callerSkip L) 2)
                    (if LevelEnabler_Enabled (addStack L)
                          (EntryLevel (ceEntry c0))
                     then stacktraceFull else stacktraceFirst)
                  :: tr))
    ∧ countIf isCapture tr = 0%nat.
Proof.
  intros Hl Hen Hc Hwant.
  destruct (terminal_Some L (entryOf L lvl msg) c0) as (c1 & Ht & He & _).
  rewrite (check_admitted_run log L lvl msg c0 c1 w) by done.
  unfold annotate, captureDepth, captureSkip, wantsStack, callerSkipOffset.
  rewrite He.
  destruct (addCaller L) eqn:Hcaller,
    (LevelEnabler_Enabled (addStack L) (EntryLevel (ceEntry c0))) eqn:Hstack;
    try (destruct Hwant; discriminate); cbn [negb andb];
    case_cond; eexists _, _; (split; [reflexivity|done]).
Qed.

(** X5: with caller annotation on, an admitted entry whose capture yields at
    least one frame gets that first frame as its caller (program counter,
    file, line, function), marked defined exactly when the program counter
    is not zero; nothing is printed to any error output. *)
Theorem check_caller_is_first_frame (log : loc) (L : Logger) (lvl : Level)
    (msg : string) (c0 : CheckedEntry) (f : Frame) (rest : list Frame)
    (w : World) :
  heap w !! log = Some L →
  (lvl < DPanicLevel → Core_Enabled (core L) lvl = true) →
  Core_Check (core L) (entryOf L lvl msg) None = Some c0 →
  addCaller L = true →
  captureStacktrace (int_add (callerSkip L) 2)
    (if LevelEnabler_Enabled (addStack L) (EntryLevel (ceEntry c0))
     then stacktraceFull else stacktraceFirst)
  = f :: rest →
  ∃ ce tr,
    check log lvl msg w = Some (Some ce, mkWorld (heap w) (trace w ++ tr))
    ∧ Caller (ceEntry ce)
      = mkEntryCaller (bool_decide (FramePC f ≠ 0)) (FramePC f)
          (FrameFile f) (FrameLine f) (FrameFunction f)
    ∧ countIf isFprintf tr = 0%nat.
Proof.
  intros Hl Hen Hc Hcaller Hframes.
  destruct (terminal_Some L (entryOf L lvl msg) c0) as (c1 & Ht & He & _).
  rewrite (check_admitted_run log L lvl msg c0 c1 w) by done.
  unfold annotate, captureDepth, captureSkip, wantsStack, callerSkipOffset.
  rewrite He, Hcaller, Hframes. cbn [negb andb].
  unfold admissionEvents.
  destruct (LevelEnabler_Enabled (addStack L) (EntryLevel (ceEntry c0)));
    eexists _, _; (split; [reflexivity|]); (split; [done|]);
    case_bool_decide; done.
Qed.

(** X6: when a stack is wanted at the record's level, an admitted entry
    whose full capture yields at least one frame gets as its stack the first
    frame formatted, followed by the formatted remainder when there is one;
    the scratch buffer is acquired and released inside the capture session;
    without caller annotation the caller stays as the sink left it. *)
Theorem check_stack_is_formatted_frames (log : loc) (L : Logger)
    (lvl : Level) (msg : string) (c0 : CheckedEntry) (f : Frame)
    (rest : list Frame) (w : World) :
  heap w !! log = Some L →
  (lvl < DPanicLevel → Core_Enabled (core L) lvl = true) →
  Core_Check (core L) (entryOf L lvl msg) None = Some c0 →
  LevelEnabler_Enabled (addStack L) (EntryLevel (ceEntry c0)) = true →
  captureStacktrace (int_add (callerSkip L) 2) stacktraceFull = f :: rest →
  ∃ ce,
    check log lvl msg w
    = Some (Some ce,
            mkWorld (heap w)
              (trace w ++ admissionEvents L lvl msg
               ++ [EvCapture (int_add (callerSkip L) 2) stacktraceFull;
                   EvBufferGet; EvBufferFree; EvStackFree]))
    ∧ Stack (ceEntry ce)
      = FormatFrame f +:+ match rest with
                          | [] => ""
                          | _ :: _ => FormatStack rest
                          end
    ∧ (addCaller L = false → Caller (ceEntry ce) = Caller (ceEntry c0)).
Proof.
  intros Hl Hen Hc Hstack Hframes.
  destruct (terminal_Some L (entryOf L lvl msg) c0) as (c1 & Ht & He & _).
  rewrite (check_admitted_run log L lvl msg c0 c1 w) by done.
  unfold annotate, captureDepth, captureSkip, wantsStack, callerSkipOffset.
  rewrite He, Hstack, Hframes, andb_false_r.
  eexists. split; [reflexivity|]. split.
  - cbn. by destruct rest.
  - intros ->. cbn. by rewrite He.
Qed.

(** X7: a capture without frames is reported only for the caller.  When a
    stack is wanted but caller annotation is off, an empty capture is
    dropped in silence: nothing is printed or synced, the session is
    released, and the record comes back with no stack added. *)
Theorem check_empty_capture_without_caller (log : loc) (L : Logger)
    (lvl : Level) (msg : string) (c0 : CheckedEntry) (w : World) :
  heap w !! log = Some L →
  (lvl < DPanicLevel → Core_Enabled (core L) lvl = true) →
  Core_Check (core L) (entryOf L lvl msg) None = Some c0 →
  addCaller L = false →
  LevelEnabler_Enabled (addStack L) (EntryLevel (ceEntry c0)) = true →
  captureStacktrace (int_add (callerSkip L) 2) stacktraceFull = [] →
  ∃ ce,
    check log lvl msg w
    = Some (Some ce,
            mkWorld (heap w)
              (trace w ++ admissionEvents L lvl msg
               ++ [EvCapture (int_add (callerSkip L) 2) stacktraceFull;
                   EvStackFree]))
    ∧ ceEntry ce = ceEntry c0.
Proof.
  intros Hl Hen Hc Hcaller Hstack Hframes.
  destruct (terminal_Some L (entryOf L lvl msg) c0) as (c1 & Ht & He & _).
  rewrite (check_admitted_run log L lvl msg c0 c1 w) by done.
  unfold annotate, captureDepth, captureSkip, wantsStack, callerSkipOffset.
  rewrite He, Hstack, Hframes, Hcaller. cbn.
  eexists. split; [reflexivity|done].
Qed.

(** X8: only DPanic, Panic and Fatal are terminal.  At any other level,
    those above Fatal included, [check] returns a record only if the sink
    admitted the entry, and the record keeps the action the sink gave it. *)
Theorem check_ordinary_level_forces_nothing (log : loc) (L : Logger)
    (lvl : Level) (msg : string) (w : World) :
  heap w !! log = Some L →
  lvl ≠ DPanicLevel → lvl ≠ PanicLevel → lvl ≠ FatalLevel →
  ∃ r w',
    check log lvl msg w = Some (r, w')
    ∧ (∀ ce, r = Some ce →
         ∃ c0, Core_Check (core L) (entryOf L lvl msg) None = Some c0
               ∧ ceAfter ce = ceAfter c0).
Proof.
  intros Hl H3 H4 H5. destruct (rejected_or_not L lvl) as [[Hlt Hen]|Hen].
  { eexists _, _. split; [by eapply check_rejected|]. done. }
  destruct (check_action log L lvl msg w Hl Hen) as (r & tr & Hrun & Hact).
  rewrite terminal_ordinary in Hact by done.
  exists r. eexists. split; [exact Hrun|].
  intros ce ->.
  destruct (Core_Check (core L) (entryOf L lvl msg) None) as [c0|];
    [|done].
  exists c0. split; [done|]. by injection Hact.
Qed.

End PipelineFacts.

(* ===================================================================== *)
(** ** The logging methods, and options seen through the pipeline *)
(* ===================================================================== *)

Section MethodFacts.
Context {Core Clock : Type} {sink : Sink Core} {time : TimeSource Clock}
  {rt : Runtime}.

Local Abbreviation Logger := (Logger Core Clock).
Local Abbreviation World := (World Core Clock).

(** A level whose action the switch forces always yields a record. *)
Lemma check_forced (log : loc) (L : Logger) (lvl : Level) (msg : string)
    (hook : CheckWriteHook) (w : World) :
  heap w !! log = Some L →
  DPanicLevel ≤ lvl →
  (∀ ce, terminal L (entryOf L lvl msg) ce
         = After ce (entryOf L lvl msg) hook) →
  ∃ ce tr,
    check log lvl msg w = Some (Some ce, mkWorld (heap w) (trace w ++ tr))
    ∧ ceAfter ce = Some hook.
Proof.
  intros Hl Hlvl Hterm.
  destruct (check_action log L lvl msg w Hl) as (r & tr & Hrun & Hact);
    [lia|].
  rewrite Hterm in Hact.
  destruct (After (Core_Check (core L) (entryOf L lvl msg) None)
              (entryOf L lvl msg) hook) as [c|] eqn:HA.
  - apply After_action in HA. destruct r as [ce|]; [|done].
    exists ce, tr. split; [done|]. cbn in Hact. congruence.
  - by destruct (Core_Check (core L) (entryOf L lvl msg) None).
Qed.

Lemma fatalHook_not_noop (L : Logger) :
  fatalHook L ≠ ActionHook WriteThenNoop.
Proof.
  unfold fatalHook. destruct (onFatal L) as [h|]; [|done].
  by case_decide.
Qed.

Lemma applied_keeps_development (L : Logger) (opt : Option) :
  development L = true → development (applied L opt) = true.
Proof.
  intros H. destruct opt; cbn; try done.
  by destruct (NewIncreaseLevelCore (core L) lvl).
Qed.

Lemma foldl_applied_keeps_development (L : Logger) (opts : list Option) :
  development L = true → development (foldl applied L opts) = true.
Proof.
  revert L. induction opts as [|opt opts IH]; intros L H; [done|].
  cbn. by apply IH, applied_keeps_development.
Qed.

Lemma foldl_applied_Development (L : Logger) (opts : list Option) :
  Development ∈ opts → development (foldl applied L opts) = true.
Proof.
  revert L. induction opts as [|opt opts IH]; intros L Hin.
  - by apply elem_of_nil in Hin.
  - apply elem_of_cons in Hin as [<-|Hin]; cbn.
    + by apply foldl_applied_keeps_development.
    + by apply IH.
Qed.

(** X10: [Debug], [Info], [Warn] and [Error] at a level the sink reports
    disabled make no call to [Write]; all they do is ask the sink whether
    the level is enabled. *)
Theorem disabled_methods_do_not_write (log : loc) (L : Logger)
    (msg : string) (fields : list Field) (w : World) :
  heap w !! log = Some L →
  (Core_Enabled (core L) DebugLevel = false →
   Debug log msg fields w
   = Some (None, mkWorld (heap w) (trace w ++ [EvCoreEnabled DebugLevel])))
  ∧ (Core_Enabled (core L) InfoLevel = false →
     Info log msg fields w
     = Some (None, mkWorld (heap w) (trace w ++ [EvCoreEnabled InfoLevel])))
  ∧ (Core_Enabled (core L) WarnLevel = false →
     Warn log msg fields w
     = Some (None, mkWorld (heap w) (trace w ++ [EvCoreEnabled WarnLevel])))
  ∧ (Core_Enabled (core L) ErrorLevel = false →
     Error log msg fields w
     = Some (None, mkWorld (heap w) (trace w ++ [EvCoreEnabled ErrorLevel]))).
Proof.
  intros Hl.
  repeat split; intros Hen;
    unfold Debug, Info, Warn, Error; rewrite bind_run;
    erewrite check_rejected by done; done.
Qed.

(** X11: [Panic] and [Fatal] always call [Write], with the fields they were
    given, whatever the sink says about the level: [Panic] on a record whose
    action is [WriteThenPanic], [Fatal] on a record that has an action, and
    never the no-op one. *)
Theorem Panic_and_Fatal_always_write (log : loc) (L : Logger) (msg : string)
    (fields : list Field) (w : World) :
  heap w !! log = Some L →
  (∃ ce w',
     Panic log msg fields w = Some (Some (mkWriteCall ce fields), w')
     ∧ ceAfter ce = Some (ActionHook WriteThenPanic))
  ∧ (∃ ce hook w',
       Fatal log msg fields w = Some (Some (mkWriteCall ce fields), w')
       ∧ ceAfter ce = Some hook
       ∧ hook ≠ ActionHook WriteThenNoop).
Proof.
  intros Hl. split.
  - destruct (check_forced log L PanicLevel msg (ActionHook WriteThenPanic) w)
      as (ce & tr & Hrun & Hact); [done|done| |].
    { intros ce. by apply terminal_Panic. }
    exists ce. eexists. unfold Panic. rewrite bind_run, Hrun. done.
  - destruct (check_forced log L FatalLevel msg (fatalHook L) w)
      as (ce & tr & Hrun & Hact); [done|done| |].
    { intros ce. by apply terminal_Fatal. }
    exists ce, (fatalHook L). eexists.
    unfold Fatal. rewrite bind_run, Hrun.
    split; [done|]. split; [done|apply fatalHook_not_noop].
Qed.

(** X12: no option turns development mode off.  A logger derived with an
    option list that contains [Development], at any position, is in
    development mode, and its [DPanic] always calls [Write] on a record
    whose action is [WriteThenPanic]. *)
Theorem Development_makes_DPanic_panic (log : loc) (L : Logger)
    (opts : list Option) (w : World) :
  heap w !! log = Some L →
  Development ∈ opts →
  ∃ c w1 Lc,
    WithOptions log opts w = Some (c, w1)
    ∧ heap w1 !! c = Some Lc
    ∧ development Lc = true
    ∧ ∀ msg fields, ∃ ce w2,
        DPanic c msg fields w1 = Some (Some (mkWriteCall ce fields), w2)
        ∧ ceAfter ce = Some (ActionHook WriteThenPanic).
Proof.
  intros Hl Hin.
  destruct (WithOptions_run log opts L w Hl) as [tr Hrun].
  eexists _, _, _. split; [exact Hrun|]. cbn [heap].
  split; [apply lookup_insert_eq|].
  pose proof (foldl_applied_Development L opts Hin) as Hdev.
  split; [exact Hdev|].
  intros msg fields.
  edestruct (check_forced (fresh (dom (heap w))) (foldl applied L opts)
               DPanicLevel msg (ActionHook WriteThenPanic)
               (mkWorld (<[fresh (dom (heap w)) := foldl applied L opts]>
                           (heap w)) (trace w ++ tr)))
    as (ce & tr' & Hc & Hact).
  { cbn [heap]. apply lookup_insert_eq. }
  { done. }
  { intros ce. rewrite terminal_DPanic by done. by rewrite Hdev. }
  exists ce. eexists. unfold DPanic. rewrite bind_run, Hc. done.
Qed.

End MethodFacts.

(* ===================================================================== *)
(** ** Further properties of the options and of derived loggers *)
(* ===================================================================== *)

Section OptionFacts.
Context {Core Clock : Type} {sink : Sink Core} {time : TimeSource Clock}
  {rt : Runtime}.

Local Abbreviation Logger := (Logger Core Clock).
Local Abbreviation World := (World Core Clock).

Lemma apply_IncreaseLevel_failed (c : loc) (L : Logger) (lvl : LevelEnabler)
    (err : string) (w : World) :
  heap w !! c = Some L →
  NewIncreaseLevelCore (core L) lvl = inr err →
  apply (IncreaseLevel lvl) c w
  = Some (tt, mkWorld (heap w)
                (trace w ++ [EvFprintf (errorOutput L)
                               ("failed to IncreaseLevel: " +:+ err
                                +:+ newline)])).
Proof. intros Hc Herr. unfold apply. run. by rewrite Herr. Qed.

Lemma apply_stores (opt : Option) (c : loc) (L : Logger) (w : World) :
  heap w !! c = Some L →
  (∀ lvl err, opt = IncreaseLevel lvl →
              NewIncreaseLevelCore (core L) lvl ≠ inr err) →
  apply opt c w
  = Some (tt, mkWorld (<[c := applied L opt]> (heap w)) (trace w)).
Proof.
  intros Hc Hok. unfold apply. run.
  destruct opt; cbn [applied]; try by erewrite store_run.
  destruct (NewIncreaseLevelCore (core L) lvl) as [c'|err] eqn:HN.
  - by erewrite store_run.
  - by destruct (Hok lvl err).
Qed.

Lemma set_callerSkip_same (L : Logger) : set_callerSkip L (callerSkip L) = L.
Proof. by destruct L. Qed.

Lemma joined_joined (n a b : string) :
  a ≠ "" → joined (joined n a) b = joined n (a +:+ "." +:+ b).
Proof.
  intros Ha. unfold joined. destruct (decide (n = "")) as [Hn|Hn].
  - by rewrite decide_False.
  - rewrite decide_False.
    + by rewrite !append_assoc.
    + destruct n; [done|discriminate].
Qed.

Lemma applied_commute (L : Logger) (o1 o2 : Option) :
  assigns o1 ≠ assigns o2 →
  applied (applied L o1) o2 = applied (applied L o2) o1.
Proof.
  intros Hne.
  destruct o1, o2; cbn in Hne; try done; cbn;
    repeat match goal with
           | |- context [NewIncreaseLevelCore ?c ?l] =>
               destruct (NewIncreaseLevelCore c l)
           end; done.
Qed.

(** X14: [IncreaseLevel] with a level the sink refuses leaves the derived
    logger a plain copy of its receiver and prints one line, naming the
    error, to the logger's error output (without syncing it); with a level
    the sink accepts it puts the new sink in place and prints nothing. *)
Theorem IncreaseLevel_failure_is_reported (log : loc) (L : Logger)
    (lvl : LevelEnabler) (w : World) :
  heap w !! log = Some L →
  (∀ err, NewIncreaseLevelCore (core L) lvl = inr err →
     ∃ c, (c ∉ dom (heap w))
          ∧ WithOptions log [IncreaseLevel lvl] w
            = Some (c, mkWorld (<[c := L]> (heap w))
                         (trace w ++ [EvFprintf (errorOutput L)
                                        ("failed to IncreaseLevel: " +:+ err
                                         +:+ newline)])))
  ∧ (∀ core', NewIncreaseLevelCore (core L) lvl = inl core' →
       ∃ c, (c ∉ dom (heap w))
            ∧ WithOptions log [IncreaseLevel lvl] w
              = Some (c, mkWorld (<[c := set_core L core']> (heap w))
                           (trace w))).
Proof.
  intros Hl. split.
  - intros err Herr. exists (fresh (dom (heap w))).
    split; [apply fresh_not_in|].
    unfold WithOptions. rewrite bind_run.
    erewrite clone_run by eassumption. cbn [applyAll].
    rewrite !bind_run.
    erewrite apply_IncreaseLevel_failed;
      [|cbn; apply lookup_insert_eq|eassumption].
    by rewrite !ret_run.
  - intros core' Hok. exists (fresh (dom (heap w))).
    split; [apply fresh_not_in|].
    unfold WithOptions. rewrite bind_run.
    erewrite clone_run by eassumption. cbn [applyAll].
    rewrite !bind_run.
    erewrite apply_stores; [|cbn; apply lookup_insert_eq|].
    + rewrite !ret_run. cbn [heap trace applied].
      by rewrite Hok, insert_insert_eq.
    + intros lvl' err [= <-]. by rewrite Hok.
Qed.

(** X15: the line [IncreaseLevel] prints on failure goes to the error output
    in force when the option runs.  Placed after [ErrorOutput dst] it goes
    to [dst]; placed before, it goes to the receiver's error output, though
    both orders derive the same logger. *)
Theorem IncreaseLevel_reports_to_current_errorOutput (log : loc)
    (L : Logger) (lvl : LevelEnabler) (err : string) (dst : WriteSyncer)
    (w : World) :
  heap w !! log = Some L →
  NewIncreaseLevelCore (core L) lvl = inr err →
  ∃ c,
    WithOptions log [ErrorOutput dst; IncreaseLevel lvl] w
    = Some (c, mkWorld (<[c := set_errorOutput L dst]> (heap w))
                 (trace w ++ [EvFprintf dst
                                ("failed to IncreaseLevel: " +:+ err
                                 +:+ newline)]))
    ∧ WithOptions log [IncreaseLevel lvl; ErrorOutput dst] w
      = Some (c, mkWorld (<[c := set_errorOutput L dst]> (heap w))
                   (trace w ++ [EvFprintf (errorOutput L)
                                  ("failed to IncreaseLevel: " +:+ err
                                   +:+ newline)])).
Proof.
  intros Hl Herr. exists (fresh (dom (heap w))). split.
  - unfold WithOptions. rewrite bind_run.
    erewrite clone_run by eassumption. cbn [applyAll].
    rewrite !bind_run.
    erewrite apply_stores; [|cbn; apply lookup_insert_eq|done].
    rewrite !bind_run.
    erewrite apply_IncreaseLevel_failed;
      [|cbn; apply lookup_insert_eq|exact Herr].
    rewrite !ret_run. cbn [heap trace applied errorOutput set_errorOutput].
    by rewrite insert_insert_eq.
  - unfold WithOptions. rewrite bind_run.
    erewrite clone_run by eassumption. cbn [applyAll].
    rewrite !bind_run.
    erewrite apply_IncreaseLevel_failed;
      [|cbn; apply lookup_insert_eq|exact Herr].
    rewrite !bind_run.
    erewrite apply_stores; [|cbn; apply lookup_insert_eq|done].
    rewrite !ret_run. cbn [heap trace applied].
    by rewrite insert_insert_eq.
Qed.

(** X16: naming in two steps or in one is the same: for non-empty segments,
    [Named(a).Named(b)] and [Named(a + "." + b)] derive loggers that agree
    on every field. *)
Theorem Named_twice_is_Named_joined (log : loc) (L : Logger) (a b : string)
    (w : World) :
  heap w !! log = Some L →
  a ≠ "" → b ≠ "" →
  issued (la ← Named log a; Named la b) w
  = issued (Named log (a +:+ "." +:+ b)) w.
Proof.
  intros Hl Ha Hb. unfold issued. rewrite bind_run.
  rewrite (Named_run log a L w) by done.
  erewrite Named_run; [|cbn; apply lookup_insert_eq|done].
  rewrite (Named_run log (a +:+ "." +:+ b) L w);
    [|done|by destruct a].
  cbn [heap]. rewrite !lookup_insert_eq. f_equal.
  cbn. by rewrite joined_joined.
Qed.

(** X17: deriving in two steps or in one is the same: [WithOptions(o1)]
    followed by [WithOptions(o2)] derives a logger that agrees on every field
    with the one [WithOptions] derives from [o1] followed by [o2]. *)
Theorem WithOptions_twice_is_WithOptions_app (log : loc) (L : Logger)
    (opts1 opts2 : list Option) (w : World) :
  heap w !! log = Some L →
  issued (c ← WithOptions log opts1; WithOptions c opts2) w
  = issued (WithOptions log (opts1 ++ opts2)) w.
Proof.
  intros Hl. rewrite (issued_WithOptions log (opts1 ++ opts2) L w Hl).
  unfold issued. rewrite bind_run.
  destruct (WithOptions_run log opts1 L w Hl) as [tr1 ->].
  edestruct (WithOptions_run (fresh (dom (heap w))) opts2
               (foldl applied L opts1)
               (mkWorld (<[fresh (dom (heap w)) := foldl applied L opts1]>
                           (heap w)) (trace w ++ tr1))) as [tr2 ->].
  { cbn. apply lookup_insert_eq. }
  cbn [heap]. by rewrite lookup_insert_eq, foldl_app.
Qed.

(** X18: [With] and the option [Fields] add fields the same way: for a
    non-empty list they derive loggers that agree on every field.  For the
    empty list they differ: [With] hands back its receiver, while
    [WithOptions(Fields())] still derives a new logger, on the sink that
    [Core.With] returns for no fields. *)
Theorem With_is_the_Fields_option (log : loc) (L : Logger) (w : World) :
  heap w !! log = Some L →
  (∀ fs, fs ≠ [] →
     issued (With log fs) w = issued (WithOptions log [Fields fs]) w)
  ∧ With log [] w = Some (log, w)
  ∧ ∃ c w1,
      WithOptions log [Fields []] w = Some (c, w1)
      ∧ (c ∉ dom (heap w))
      ∧ heap w1 !! c = Some (set_core L (Core_With (core L) [])).
Proof.
  intros Hl. split; [|split].
  - intros fs Hfs. rewrite (issued_WithOptions log _ L w Hl).
    unfold issued. rewrite (With_run log fs L w) by done.
    cbn [heap]. by rewrite lookup_insert_eq.
  - done.
  - destruct (WithOptions_run log [Fields []] L w Hl) as [tr Hrun].
    eexists _, _. split; [exact Hrun|].
    split; [apply fresh_not_in|]. cbn [heap]. apply lookup_insert_eq.
Qed.

(** X19: two neighbouring options that assign different fields can change
    places, anywhere in the list, without changing the logger derived. *)
Theorem options_on_different_fields_commute (log : loc) (L : Logger)
    (pre post : list Option) (o1 o2 : Option) (w : World) :
  heap w !! log = Some L →
  assigns o1 ≠ assigns o2 →
  issued (WithOptions log (pre ++ o1 :: o2 :: post)) w
  = issued (WithOptions log (pre ++ o2 :: o1 :: post)) w.
Proof.
  intros Hl Hne. rewrite !(issued_WithOptions log _ L w Hl).
  rewrite !foldl_app. cbn [foldl]. by rewrite applied_commute.
Qed.

(** X20: [AddCallerSkip] undoes itself: adding [n] and then [-n] derives a
    plain copy of the receiver, overflow of the intermediate count
    included, as long as the receiver's count is an [int]. *)
Theorem AddCallerSkip_round_trip (log : loc) (L : Logger) (n : Z)
    (w : World) :
  heap w !! log = Some L →
  - 2 ^ 63 ≤ callerSkip L < 2 ^ 63 →
  issued (WithOptions log [AddCallerSkip n; AddCallerSkip (- n)]) w = Some L.
Proof.
  intros Hl Hr. rewrite (issued_WithOptions log _ L w Hl).
  cbn [foldl applied]. f_equal.
  destruct L as [c d a o nm eo st cs ck]. cbn in *.
  unfold set_callerSkip, int_add. cbn. f_equal.
  rewrite wrap_int_idemp_l.
  replace (cs + n + - n) with cs by lia. by apply wrap_int_small.
Qed.

Lemma foldl_applied_frame {A} (p : Logger → A) (t : LoggerField)
    (L : Logger) (opts : list Option) :
  (∀ L' o, assigns o ≠ t → p (applied L' o) = p L') →
  Forall (λ o, assigns o ≠ t) opts →
  p (foldl applied L opts) = p L.
Proof.
  intros Hp. revert L. induction opts as [|o opts IH]; intros L Hall; [done|].
  apply Forall_cons in Hall as [Ho Hall]. cbn.
  rewrite IH by done. by apply Hp.
Qed.

Ltac applied_frame :=
  let L := fresh "L" in
  let o := fresh "o" in
  let H := fresh "H" in
  intros L o H; destruct o; cbn in H; try done; cbn;
  repeat match goal with
         | |- context [NewIncreaseLevelCore ?c ?l] =>
             destruct (NewIncreaseLevelCore c l)
         end; done.

(** X21: an option changes no field but the one it assigns.  Whatever the
    options, the derived logger has the receiver's name; and it has the
    receiver's sink, error output, flags, fatal hook, stack policy, caller
    skip or clock as soon as no option in the list assigns that field. *)
Theorem options_change_only_what_they_assign (log : loc) (L : Logger)
    (opts : list Option) (w : World) :
  heap w !! log = Some L →
  name <$> issued (WithOptions log opts) w = Some (name L)
  ∧ (Forall (λ o, assigns o ≠ F_core) opts →
     core <$> issued (WithOptions log opts) w = Some (core L))
  ∧ (Forall (λ o, assigns o ≠ F_errorOutput) opts →
     errorOutput <$> issued (WithOptions log opts) w = Some (errorOutput L))
  ∧ (Forall (λ o, assigns o ≠ F_development) opts →
     development <$> issued (WithOptions log opts) w
     = Some (development L))
  ∧ (Forall (λ o, assigns o ≠ F_addCaller) opts →
     addCaller <$> issued (WithOptions log opts) w = Some (addCaller L))
  ∧ (Forall (λ o, assigns o ≠ F_onFatal) opts →
     onFatal <$> issued (WithOptions log opts) w = Some (onFatal L))
  ∧ (Forall (λ o, assigns o ≠ F_addStack) opts →
     addStack <$> issued (WithOptions log opts) w = Some (addStack L))
  ∧ (Forall (λ o, assigns o ≠ F_callerSkip) opts →
     callerSkip <$> issued (WithOptions log opts) w = Some (callerSkip L))
  ∧ (Forall (λ o, assigns o ≠ F_clock) opts →
     clock <$> issued (WithOptions log opts) w = Some (clock L)).
Proof.
  intros Hl. rewrite (issued_WithOptions log opts L w Hl). cbn.
  split.
  { f_equal. induction opts as [|o opts IH] using rev_ind; [done|].
    rewrite foldl_app. cbn. rewrite <- IH.
    destruct o; cbn; try done.
    by destruct (NewIncreaseLevelCore _ _). }
  repeat split; intros Hall; f_equal;
    (eapply foldl_applied_frame; [|exact Hall]); applied_frame.
Qed.

Lemma New_run (c : Core) (opts : list Option) (w : World) :
  ∃ l0 l tr,
    New (Some c) opts w
    = Some (l, mkWorld (<[l := foldl applied (defaultLogger c) opts]>
                          (<[l0 := defaultLogger c]> (heap w)))
                 (trace w ++ tr))
    ∧ (l0 ∉ dom (heap w))
    ∧ (l ∉ dom (heap w))
    ∧ l ≠ l0.
Proof.
  set (l0 := fresh (dom (heap w))).
  set (w0 := mkWorld (<[l0 := defaultLogger c]> (heap w)) (trace w)).
  destruct (WithOptions_run l0 opts (defaultLogger c) w0) as [tr Hrun].
  { cbn. apply lookup_insert_eq. }
  exists l0, (fresh (dom (heap w0))), tr.
  split; [exact Hrun|].
  split; [apply fresh_not_in|].
  pose proof (fresh_lookup w0) as Hfresh.
  assert (Hne : fresh (dom (heap w0)) ≠ l0).
  { intros Heq. rewrite Heq in Hfresh. cbn in Hfresh.
    by rewrite lookup_insert_eq in Hfresh. }
  split; [|exact Hne].
  intros [x Hx]%elem_of_dom. subst w0. cbn [heap] in *.
  rewrite lookup_insert_ne in Hfresh by done. congruence.
Qed.

(** X22: [New] with a sink touches no logger that exists and returns a new
    one, which is the logger of its defaults (no name, no flag, no fatal
    hook, standard error as error output, stacks above Fatal only, no extra
    caller skip, the default clock) after the options have run on it in
    order. *)
Theorem New_applies_options_to_defaults (c : Core) (opts : list Option)
    (w : World) :
  ∃ l w1,
    New (Some c) opts w = Some (l, w1)
    ∧ (l ∉ dom (heap w))
    ∧ (heap w ⊆ heap w1)
    ∧ heap w1 !! l
      = Some (foldl applied
                (mkLogger c false false None "" LockedStderr (LevelOf 6) 0
                   DefaultClock)
                opts).
Proof.
  destruct (New_run c opts w) as (l0 & l & tr & Hrun & Hl0 & Hl & Hne).
  eexists _, _. split; [exact Hrun|]. split; [exact Hl|]. cbn [heap].
  split; [|apply lookup_insert_eq].
  etrans; [apply (insert_subseteq _ l0 (defaultLogger c))|].
  - by apply not_elem_of_dom.
  - apply insert_subseteq. rewrite lookup_insert_ne by done.
    by apply not_elem_of_dom.
Qed.

(** X23: a logger built by [New] without options annotates nothing up to
    Fatal: for an entry the sink admits with a record at a level up to
    Fatal, [check] makes the calls of the admission and no capture, and
    returns the sink's entry with standard error as its error output. *)
Theorem New_without_options_does_not_annotate (c : Core) (lvl : Level)
    (msg : string) (c0 : CheckedEntry) (w : World) :
  (lvl < DPanicLevel → Core_Enabled c lvl = true) →
  Core_Check c (mkEntry "" (Clock_Now DefaultClock) lvl msg noCaller "") None
  = Some c0 →
  EntryLevel (ceEntry c0) ≤ FatalLevel →
  ∃ l w1 ce,
    New (Some c) [] w = Some (l, w1)
    ∧ check l lvl msg w1
      = Some (Some ce,
              mkWorld (heap w1)
                (trace w ++ admissionEvents (defaultLogger c) lvl msg))
    ∧ ceEntry ce = ceEntry c0
    ∧ ceErrorOutput ce = Some LockedStderr.
Proof.
  intros Hen Hc Hlvl.
  destruct (New_run c [] w) as (l0 & l & tr & Hrun & _).
  assert (Htr : tr = []).
  { unfold New in Hrun. rewrite bind_run in Hrun. cbn [alloc] in Hrun.
    unfold WithOptions in Hrun. rewrite bind_run in Hrun.
    erewrite clone_run in Hrun by (cbn; apply lookup_insert_eq).
    cbn in Hrun. injection Hrun as _ _ Htr.
    rewrite <- (app_nil_r (trace w)) in Htr at 1.
    by apply app_inv_head in Htr. }
  subst tr. rewrite app_nil_r in Hrun.
  destruct (terminal_Some (defaultLogger c) (entryOf (defaultLogger c) lvl msg)
              c0) as (c1 & Ht & He & _).
  assert (Hann : annotate (defaultLogger c) c1
                 = (set_ErrorOutput c1 LockedStderr, [])).
  { unfold annotate, wantsStack. rewrite He.
    cbn [defaultLogger addCaller addStack negb andb LevelEnabler_Enabled
         errorOutput].
    rewrite bool_decide_false by (unfold FatalLevel in *; lia). done. }
  exists l. eexists. exists (set_ErrorOutput c1 LockedStderr).
  split; [exact Hrun|]. split; [|by rewrite <- He].
  erewrite (check_admitted_run l (defaultLogger c) lvl msg c0 c1);
    [|cbn [heap foldl]; apply lookup_insert_eq|exact Hen|exact Hc|exact Ht].
  rewrite Hann. cbn [fst snd heap trace]. by rewrite !app_nil_r.
Qed.

Lemma annotate_capture_first (L : Logger) (c1 : CheckedEntry) :
  addCaller L = true →
  ∃ tr, (annotate L c1).2
        = EvCapture (captureSkip L) (captureDepth L c1) :: tr.
Proof.
  intros Hcaller. unfold annotate. rewrite Hcaller. cbn [negb andb].
  repeat case_cond; eauto.
Qed.

(** X24: the sugared view skips two more frames.  With caller annotation
    on, an admitted entry checked through the logger that [Sugar] wraps
    opens its capture at the receiver's [callerSkip] plus four, while the
    receiver itself keeps capturing at its [callerSkip] plus two. *)
Theorem Sugar_skips_two_more_frames (log : loc) (L : Logger) (lvl : Level)
    (msg : string) (c0 : CheckedEntry) (w : World) :
  heap w !! log = Some L →
  addCaller L = true →
  (lvl < DPanicLevel → Core_Enabled (core L) lvl = true) →
  Core_Check (core L) (entryOf L lvl msg) None = Some c0 →
  ∃ s w1 depth ce tr ce' tr',
    Sugar log w = Some (s, w1)
    ∧ check (base s) lvl msg w1
      = Some (Some ce,
              mkWorld (heap w1)
                (trace w1 ++ admissionEvents L lvl msg
                 ++ EvCapture (int_add (int_add (callerSkip L) 2) 2) depth
                    :: tr))
    ∧ check log lvl msg w1
      = Some (Some ce',
              mkWorld (heap w1)
                (trace w1 ++ admissionEvents L lvl msg
                 ++ EvCapture (int_add (callerSkip L) 2) depth :: tr')).
Proof.
  intros Hl Hcaller Hen Hc.
  set (Ls := set_callerSkip L (int_add (callerSkip L) 2)).
  destruct (terminal_Some L (entryOf L lvl msg) c0) as (c1 & Ht & _).
  assert (Hts : terminal Ls (entryOf Ls lvl msg) (Some c0) = Some c1)
    by exact Ht.
  destruct (annotate_capture_first Ls c1 Hcaller) as [tr Htr].
  destruct (annotate_capture_first L c1 Hcaller) as [tr' Htr'].
  pose proof (fresh_ne log L w Hl) as Hne.
  eexists _, _, (captureDepth L c1), _, tr, _, tr'.
  split; [by apply Sugar_run|]. split.
  - erewrite (check_admitted_run _ Ls lvl msg c0 c1);
      [|cbn [heap]; apply lookup_insert_eq|exact Hen|exact Hc|exact Hts].
    by rewrite Htr.
  - erewrite (check_admitted_run _ L lvl msg c0 c1);
      [|cbn [heap]; by rewrite lookup_insert_ne|exact Hen|exact Hc|exact Ht].
    by rewrite Htr'.
Qed.
End OptionFacts.

(* ===================================================================== *)
(** ** The theorems at work on concrete loggers *)
(* ===================================================================== *)

Lemma check_Panic_forces_WriteThenPanic_witness :
  heap sampleWorld !! 2%positive = Some quietLogger
  ∧ ∃ ce w',
      check (rt := framesRuntime) 2%positive PanicLevel "boom" sampleWorld
      = Some (Some ce, w')
      ∧ ceAfter ce = Some (ActionHook WriteThenPanic).
Proof.
  split; [reflexivity|].
  destruct (check_Panic_forces_WriteThenPanic (rt := framesRuntime)
              2%positive quietLogger "boom" sampleWorld eq_refl)
    as (ce & w' & Hrun & Hafter & _).
  exists ce, w'. split; [exact Hrun|exact Hafter].
Defined.

Lemma check_Fatal_action_witness :
  heap sampleWorld !! 1%positive = Some sampleLogger
  ∧ ∃ ce w',
      check (rt := framesRuntime) 1%positive FatalLevel "boom" sampleWorld
      = Some (Some ce, w')
      ∧ ceAfter ce = Some (ActionHook WriteThenFatal).
Proof.
  split; [reflexivity|].
  destruct (check_Fatal_action (rt := framesRuntime)
              1%positive sampleLogger "boom" sampleWorld eq_refl)
    as (ce & w' & Hrun & _ & Hnoop & _).
  exists ce, w'. split; [exact Hrun|exact (Hnoop eq_refl)].
Defined.

Lemma check_DPanic_development_witness :
  heap sampleWorld !! 2%positive = Some quietLogger
  ∧ ∃ ce w',
      check (rt := framesRuntime) 2%positive DPanicLevel "boom" sampleWorld
      = Some (Some ce, w')
      ∧ ceAfter ce = Some (ActionHook WriteThenPanic).
Proof.
  split; [reflexivity|].
  destruct (check_DPanic_development (rt := framesRuntime)
              2%positive quietLogger "boom" sampleWorld eq_refl)
    as [Hdev _].
  destruct (Hdev eq_refl) as (ce & w' & Hrun & Hafter & _).
  exists ce, w'. split; [exact Hrun|exact Hafter].
Defined.

Lemma check_disabled_fast_rejection_witness :
  heap sampleWorld !! 1%positive = Some sampleLogger
  ∧ DebugLevel < DPanicLevel
  ∧ Core_Enabled (core sampleLogger) DebugLevel = false
  ∧ ∃ w',
      check (rt := framesRuntime) 1%positive DebugLevel "noise" sampleWorld
      = Some (None, w')
      ∧ heap w' = heap sampleWorld
      ∧ trace w' = trace sampleWorld ++ [EvCoreEnabled DebugLevel].
Proof.
  split; [reflexivity|]. split; [reflexivity|]. split; [reflexivity|].
  exact (check_disabled_fast_rejection (rt := framesRuntime)
           1%positive sampleLogger DebugLevel "noise" sampleWorld
           eq_refl eq_refl eq_refl).
Defined.

Lemma check_no_write_no_annotation_witness :
  heap sampleWorld !! 2%positive = Some quietLogger
  ∧ Core_Check (core quietLogger) (entryOf quietLogger PanicLevel "boom") None
    = None
  ∧ ∃ r w' tr,
      check (rt := framesRuntime) 2%positive PanicLevel "boom" sampleWorld
      = Some (r, w')
      ∧ r = terminal quietLogger (entryOf quietLogger PanicLevel "boom") None
      ∧ (r = None
         ∨ ∃ hook,
             r = Some (mkCheckedEntry (entryOf quietLogger PanicLevel "boom")
                         None (Some hook)))
      ∧ heap w' = heap sampleWorld
      ∧ trace w' = trace sampleWorld ++ tr
      ∧ (∀ e, e ∈ tr →
           e = EvCoreEnabled PanicLevel ∨ e = EvClockNow
           ∨ e = EvCoreCheck (entryOf quietLogger PanicLevel "boom")).
Proof.
  split; [reflexivity|]. split; [reflexivity|].
  exact (check_no_write_no_annotation (rt := framesRuntime)
           2%positive quietLogger PanicLevel "boom" sampleWorld
           eq_refl eq_refl).
Defined.

Lemma check_no_frames_one_report_witness :
  heap sampleWorld !! 1%positive = Some sampleLogger
  ∧ addCaller sampleLogger = true
  ∧ Core_Enabled (core sampleLogger) WarnLevel = true
  ∧ Core_Check (core sampleLogger) (entryOf sampleLogger WarnLevel "careful")
      None
    = Some (mkCheckedEntry (entryOf sampleLogger WarnLevel "careful")
              None None)
  ∧ ∃ ce w',
      check (rt := noFramesRuntime) 1%positive WarnLevel "careful" sampleWorld
      = Some (Some ce, w')
      ∧ countReports (Syncer 1) (trace w') = 1%nat
      ∧ ceErrorOutput ce = Some (Syncer 1).
Proof.
  split; [reflexivity|]. split; [reflexivity|]. split; [reflexivity|].
  split; [reflexivity|].
  destruct (check_no_frames_one_report (sink := TestCore_Sink)
              (time := ConstantClock) (rt := noFramesRuntime)
              1%positive sampleLogger WarnLevel "careful"
              (mkCheckedEntry (entryOf sampleLogger WarnLevel "careful")
                 None None)
              sampleWorld eq_refl eq_refl (λ _, eq_refl true) eq_refl
              (λ _, eq_refl []))
    as (ce & depth & Hrun & Hcount & Hout & _).
  exists ce. eexists. split; [exact Hrun|]. split; [exact Hcount|exact Hout].
Defined.

Lemma configuration_leaves_receiver_witness :
  heap sampleWorld !! 1%positive = Some sampleLogger
  ∧ ∃ r w',
      With 1%positive [mkField "user" "ada"] sampleWorld = Some (r, w')
      ∧ heap w' !! 1%positive = Some sampleLogger
      ∧ (∀ lvl msg,
           fst <$> check (rt := framesRuntime) 1%positive lvl msg w'
           = fst <$> check (rt := framesRuntime) 1%positive lvl msg
                       sampleWorld).
Proof.
  split; [reflexivity|].
  destruct (configuration_leaves_receiver (rt := framesRuntime)
              1%positive sampleLogger sampleWorld eq_refl)
    as (_ & HWith & _).
  destruct (HWith [mkField "user" "ada"])
    as (r & w' & Hrun & Hkeep & _ & Hcheck & _).
  exists r, w'. split; [exact Hrun|]. split; [exact Hkeep|exact Hcheck].
Defined.

Lemma Named_joins_with_period_witness :
  heap sampleWorld !! 1%positive = Some sampleLogger
  ∧ name <$> issued (la ← Named 1%positive "a"; Named la "b") sampleWorld
    = Some "a.b".
Proof.
  split; [reflexivity|].
  destruct (Named_joins_with_period 1%positive sampleLogger sampleWorld
              eq_refl) as (Hab & _).
  exact (Hab "a" "b" ltac:(discriminate) ltac:(discriminate)).
Defined.

Lemma WithOptions_in_order_witness :
  heap sampleWorld !! 1%positive = Some sampleLogger
  ∧ callerSkip
      <$> issued (WithOptions 1%positive [AddCallerSkip 1; AddCallerSkip 2])
            sampleWorld
    = Some 3.
Proof.
  split; [reflexivity|].
  destruct (WithOptions_in_order 1%positive sampleLogger sampleWorld eq_refl)
    as (_ & _ & _ & _ & _ & _ & _ & _ & Hsum).
  exact (Hsum 1 2 ltac:(done)).
Defined.

(** C4 as stated fails: [Named] with the empty segment hands back its
    receiver, so the logger it returns is not a new one. *)
Lemma Named_empty_is_not_new :
  ¬ ∃ r w',
      Named 1%positive "" sampleWorld = Some (r, w')
      ∧ r ∉ dom (heap sampleWorld).
Proof.
  intros (r & w' & Hrun & Hnew). injection Hrun as <- <-.
  apply Hnew, elem_of_dom. by exists sampleLogger.
Qed.

(** C5 as stated fails: on a logger that already has a name, here [x], the
    two segments give [x.a.b], not [a.b]. *)
Lemma Named_on_named_logger :
  name <$> issued (la ← Named 2%positive "a"; Named la "b") sampleWorld
  = Some "x.a.b"
  ∧ name <$> issued (la ← Named 2%positive "a"; Named la "b") sampleWorld
    ≠ Some "a.b".
Proof.
  assert (H : name <$> issued (la ← Named 2%positive "a"; Named la "b")
                         sampleWorld = Some "x.a.b") by (vm_compute; done).
  split; [exact H|]. rewrite H. discriminate.
Qed.

(* --------------------------------------------------------------------- *)
(** *** The further properties on concrete loggers *)

Lemma check_releases_what_it_acquires_witness :
  heap sampleWorld !! 1%positive = Some sampleLogger
  ∧ ∃ r tr,
      check (rt := framesRuntime) 1%positive ErrorLevel "boom" sampleWorld
      = Some (r, mkWorld (heap sampleWorld) (trace sampleWorld ++ tr))
      ∧ countIf isStackFree tr = countIf isCapture tr
      ∧ countIf isBufferFree tr = countIf isBufferGet tr.
Proof.
  split; [reflexivity|].
  destruct (check_releases_what_it_acquires (sink := TestCore_Sink)
              (time := ConstantClock) (rt := framesRuntime)
              1%positive sampleLogger ErrorLevel "boom" sampleWorld eq_refl)
    as (r & tr & Hrun & _ & Hfree & Hbuf & _).
  exists r, tr. split; [exact Hrun|]. split; [exact Hfree|exact Hbuf].
Defined.

Lemma check_without_annotation_request_witness :
  heap stackWorld !! 1%positive = Some stackOnlyLogger
  ∧ Core_Enabled (core stackOnlyLogger) InfoLevel = true
  ∧ Core_Check (core stackOnlyLogger)
      (entryOf stackOnlyLogger InfoLevel "hello") None
    = Some (mkCheckedEntry (entryOf stackOnlyLogger InfoLevel "hello")
              None None)
  ∧ addCaller stackOnlyLogger = false
  ∧ LevelEnabler_Enabled (addStack stackOnlyLogger) InfoLevel = false
  ∧ ∃ ce,
      check (rt := framesRuntime) 1%positive InfoLevel "hello" stackWorld
      = Some (Some ce,
              mkWorld (heap stackWorld)
                (trace stackWorld
                 ++ admissionEvents stackOnlyLogger InfoLevel "hello"))
      ∧ ceEntry ce = entryOf stackOnlyLogger InfoLevel "hello"
      ∧ ceErrorOutput ce = Some (Syncer 3).
Proof.
  do 5 (split; [reflexivity|]).
  exact (check_without_annotation_request (sink := TestCore_Sink)
           (time := ConstantClock) (rt := framesRuntime)
           1%positive stackOnlyLogger InfoLevel "hello"
           (mkCheckedEntry (entryOf stackOnlyLogger InfoLevel "hello")
              None None)
           stackWorld eq_refl (λ _, eq_refl true) eq_refl eq_refl eq_refl).
Defined.

Lemma check_capture_request_witness :
  heap sampleWorld !! 1%positive = Some sampleLogger
  ∧ Core_Enabled (core sampleLogger) WarnLevel = true
  ∧ Core_Check (core sampleLogger) (entryOf sampleLogger WarnLevel "careful")
      None
    = Some (mkCheckedEntry (entryOf sampleLogger WarnLevel "careful")
              None None)
  ∧ addCaller sampleLogger = true
  ∧ ∃ ce tr,
      check (rt := framesRuntime) 1%positive WarnLevel "careful" sampleWorld
      = Some (Some ce,
              mkWorld (heap sampleWorld)
                (trace sampleWorld
                 ++ admissionEvents sampleLogger WarnLevel "careful"
                 ++ EvCapture 2 stacktraceFirst :: tr))
      ∧ countIf isCapture tr = 0%nat.
Proof.
  do 4 (split; [reflexivity|]).
  exact (check_capture_request (sink := TestCore_Sink)
           (time := ConstantClock) (rt := framesRuntime)
           1%positive sampleLogger WarnLevel "careful"
           (mkCheckedEntry (entryOf sampleLogger WarnLevel "careful")
              None None)
           sampleWorld eq_refl (λ _, eq_refl true) eq_refl
           (or_introl eq_refl)).
Defined.

Lemma check_caller_is_first_frame_witness :
  heap sampleWorld !! 1%positive = Some sampleLogger
  ∧ Core_Enabled (core sampleLogger) WarnLevel = true
  ∧ Core_Check (core sampleLogger) (entryOf sampleLogger WarnLevel "careful")
      None
    = Some (mkCheckedEntry (entryOf sampleLogger WarnLevel "careful")
              None None)
  ∧ addCaller sampleLogger = true
  ∧ captureStacktrace (Runtime := framesRuntime) 2 stacktraceFirst
    = [mkFrame 4198400 "main.go" 12 "main.run"]
  ∧ ∃ ce tr,
      check (rt := framesRuntime) 1%positive WarnLevel "careful" sampleWorld
      = Some (Some ce,
              mkWorld (heap sampleWorld) (trace sampleWorld ++ tr))
      ∧ Caller (ceEntry ce)
        = mkEntryCaller true 4198400 "main.go" 12 "main.run"
      ∧ countIf isFprintf tr = 0%nat.
Proof.
  do 5 (split; [reflexivity|]).
  exact (check_caller_is_first_frame (sink := TestCore_Sink)
           (time := ConstantClock) (rt := framesRuntime)
           1%positive sampleLogger WarnLevel "careful"
           (mkCheckedEntry (entryOf sampleLogger WarnLevel "careful")
              None None)
           (mkFrame 4198400 "main.go" 12 "main.run") []
           sampleWorld eq_refl (λ _, eq_refl true) eq_refl eq_refl eq_refl).
Defined.

Lemma check_stack_is_formatted_frames_witness :
  heap sampleWorld !! 1%positive = Some sampleLogger
  ∧ Core_Enabled (core sampleLogger) ErrorLevel = true
  ∧ Core_Check (core sampleLogger) (entryOf sampleLogger ErrorLevel "boom")
      None
    = Some (mkCheckedEntry (entryOf sampleLogger ErrorLevel "boom")
              None None)
  ∧ LevelEnabler_Enabled (addStack sampleLogger) ErrorLevel = true
  ∧ captureStacktrace (Runtime := framesRuntime) 2 stacktraceFull
    = sampleFrames
  ∧ ∃ ce w',
      check (rt := framesRuntime) 1%positive ErrorLevel "boom" sampleWorld
      = Some (Some ce, w')
      ∧ Stack (ceEntry ce)
        = "main.run main.gomain.main main.goruntime.main proc.go".
Proof.
  do 5 (split; [reflexivity|]).
  destruct (check_stack_is_formatted_frames (sink := TestCore_Sink)
              (time := ConstantClock) (rt := framesRuntime)
              1%positive sampleLogger ErrorLevel "boom"
              (mkCheckedEntry (entryOf sampleLogger ErrorLevel "boom")
                 None None)
              (mkFrame 4198400 "main.go" 12 "main.run")
              [mkFrame 4198000 "main.go" 30 "main.main";
               mkFrame 4190000 "proc.go" 250 "runtime.main"]
              sampleWorld eq_refl (λ _, eq_refl true) eq_refl eq_refl
              eq_refl)
    as (ce & Hrun & Hstack & _).
  exists ce. eexists. split; [exact Hrun|exact Hstack].
Defined.

Lemma check_empty_capture_without_caller_witness :
  heap stackWorld !! 1%positive = Some stackOnlyLogger
  ∧ Core_Enabled (core stackOnlyLogger) ErrorLevel = true
  ∧ Core_Check (core stackOnlyLogger)
      (entryOf stackOnlyLogger ErrorLevel "boom") None
    = Some (mkCheckedEntry (entryOf stackOnlyLogger ErrorLevel "boom")
              None None)
  ∧ addCaller stackOnlyLogger = false
  ∧ LevelEnabler_Enabled (addStack stackOnlyLogger) ErrorLevel = true
  ∧ captureStacktrace (Runtime := noFramesRuntime) 2 stacktraceFull = []
  ∧ ∃ ce,
      check (rt := noFramesRuntime) 1%positive ErrorLevel "boom" stackWorld
      = Some (Some ce,
              mkWorld (heap stackWorld)
                (trace stackWorld
                 ++ admissionEvents stackOnlyLogger ErrorLevel "boom"
                 ++ [EvCapture 2 stacktraceFull; EvStackFree]))
      ∧ ceEntry ce = entryOf stackOnlyLogger ErrorLevel "boom".
Proof.
  do 6 (split; [reflexivity|]).
  exact (check_empty_capture_without_caller (sink := TestCore_Sink)
           (time := ConstantClock) (rt := noFramesRuntime)
           1%positive stackOnlyLogger ErrorLevel "boom"
           (mkCheckedEntry (entryOf stackOnlyLogger ErrorLevel "boom")
              None None)
           stackWorld eq_refl (λ _, eq_refl true) eq_refl eq_refl eq_refl
           eq_refl).
Defined.

Lemma check_ordinary_level_forces_nothing_witness :
  heap sampleWorld !! 2%positive = Some quietLogger
  ∧ 7 ≠ DPanicLevel ∧ 7 ≠ PanicLevel ∧ 7 ≠ FatalLevel
  ∧ ∃ ce w',
      check (rt := framesRuntime) 2%positive 7 "beyond" sampleWorld
      = Some (Some ce, w')
      ∧ ceAfter ce = None.
Proof.
  do 4 (split; [done|]).
  destruct (check_ordinary_level_forces_nothing (sink := TestCore_Sink)
              (time := ConstantClock) (rt := framesRuntime)
              2%positive quietLogger 7 "beyond" sampleWorld eq_refl
              ltac:(done) ltac:(done) ltac:(done))
    as (r & w' & Hrun & Hact).
  destruct r as [ce|].
  - destruct (Hact ce eq_refl) as (c0 & Hc0 & Ha).
    exists ce, w'. split; [exact Hrun|]. rewrite Ha.
    vm_compute in Hc0. by injection Hc0 as <-.
  - exfalso. vm_compute in Hrun. discriminate.
Defined.


Lemma disabled_methods_do_not_write_witness :
  heap sampleWorld !! 1%positive = Some sampleLogger
  ∧ Core_Enabled (core sampleLogger) DebugLevel = false
  ∧ Debug (rt := framesRuntime) 1%positive "noise" [mkField "k" "v"]
      sampleWorld
    = Some (None, mkWorld (heap sampleWorld)
                    (trace sampleWorld ++ [EvCoreEnabled DebugLevel])).
Proof.
  do 2 (split; [reflexivity|]).
  destruct (disabled_methods_do_not_write (sink := TestCore_Sink)
              (time := ConstantClock) (rt := framesRuntime)
              1%positive sampleLogger "noise" [mkField "k" "v"] sampleWorld
              eq_refl) as (HDebug & _).
  exact (HDebug eq_refl).
Defined.

Lemma Panic_and_Fatal_always_write_witness :
  heap sampleWorld !! 2%positive = Some quietLogger
  ∧ ∃ ce w',
      Panic (rt := framesRuntime) 2%positive "boom" [mkField "k" "v"]
        sampleWorld
      = Some (Some (mkWriteCall ce [mkField "k" "v"]), w')
      ∧ ceAfter ce = Some (ActionHook WriteThenPanic).
Proof.
  split; [reflexivity|].
  destruct (Panic_and_Fatal_always_write (sink := TestCore_Sink)
              (time := ConstantClock) (rt := framesRuntime)
              2%positive quietLogger "boom" [mkField "k" "v"] sampleWorld
              eq_refl) as (HPanic & _).
  exact HPanic.
Defined.

Lemma Development_makes_DPanic_panic_witness :
  heap sampleWorld !! 1%positive = Some sampleLogger
  ∧ @Development TestCore Z ∈ [AddCaller; Development; AddCallerSkip 1]
  ∧ ∃ c w1 Lc,
      WithOptions 1%positive [AddCaller; Development; AddCallerSkip 1]
        sampleWorld
      = Some (c, w1)
      ∧ heap w1 !! c = Some Lc
      ∧ development Lc = true.
Proof.
  assert (Hin : @Development TestCore Z
                ∈ [AddCaller; Development; AddCallerSkip 1])
    by (apply elem_of_cons; right; apply elem_of_cons; by left).
  split; [reflexivity|]. split; [exact Hin|].
  destruct (Development_makes_DPanic_panic (sink := TestCore_Sink)
              (time := ConstantClock) (rt := framesRuntime)
              1%positive sampleLogger
              [AddCaller; Development; AddCallerSkip 1] sampleWorld
              eq_refl Hin) as (c & w1 & Lc & Hrun & Hc & Hdev & _).
  exists c, w1, Lc. split; [exact Hrun|]. split; [exact Hc|exact Hdev].
Defined.


Lemma IncreaseLevel_failure_is_reported_witness :
  heap sampleWorld !! 1%positive = Some sampleLogger
  ∧ NewIncreaseLevelCore (core sampleLogger) (LevelOf DebugLevel)
    = inr "invalid increase level"
  ∧ ∃ c,
      (c ∉ dom (heap sampleWorld))
      ∧ WithOptions 1%positive [IncreaseLevel (LevelOf DebugLevel)]
          sampleWorld
        = Some (c, mkWorld (<[c := sampleLogger]> (heap sampleWorld))
                     (trace sampleWorld
                      ++ [EvFprintf (Syncer 1)
                            ("failed to IncreaseLevel: "
                             +:+ "invalid increase level" +:+ newline)])).
Proof.
  do 2 (split; [reflexivity|]).
  destruct (IncreaseLevel_failure_is_reported (sink := TestCore_Sink)
              1%positive sampleLogger (LevelOf DebugLevel) sampleWorld
              eq_refl) as (Hfail & _).
  exact (Hfail "invalid increase level" eq_refl).
Defined.

Lemma IncreaseLevel_reports_to_current_errorOutput_witness :
  heap sampleWorld !! 1%positive = Some sampleLogger
  ∧ NewIncreaseLevelCore (core sampleLogger) (LevelOf DebugLevel)
    = inr "invalid increase level"
  ∧ ∃ c w1 w2,
      WithOptions 1%positive
        [ErrorOutput Discard; IncreaseLevel (LevelOf DebugLevel)] sampleWorld
      = Some (c, w1)
      ∧ WithOptions 1%positive
          [IncreaseLevel (LevelOf DebugLevel); ErrorOutput Discard]
          sampleWorld
        = Some (c, w2)
      ∧ countReports Discard (trace w1) = 1%nat
      ∧ countReports Discard (trace w2) = 0%nat
      ∧ heap w1 = heap w2.
Proof.
  do 2 (split; [reflexivity|]).
  destruct (IncreaseLevel_reports_to_current_errorOutput
              (sink := TestCore_Sink)
              1%positive sampleLogger (LevelOf DebugLevel)
              "invalid increase level" Discard sampleWorld eq_refl eq_refl)
    as (c & H1 & H2).
  eexists c, _, _. split; [exact H1|]. split; [exact H2|].
  split; [reflexivity|]. split; reflexivity.
Defined.

Lemma Named_twice_is_Named_joined_witness :
  heap sampleWorld !! 2%positive = Some quietLogger
  ∧ "a" ≠ "" ∧ "b" ≠ ""
  ∧ issued (la ← Named 2%positive "a"; Named la "b") sampleWorld
    = issued (Named 2%positive "a.b") sampleWorld.
Proof.
  split; [reflexivity|]. do 2 (split; [discriminate|]).
  exact (Named_twice_is_Named_joined 2%positive quietLogger "a" "b"
           sampleWorld eq_refl ltac:(discriminate) ltac:(discriminate)).
Defined.

Lemma WithOptions_twice_is_WithOptions_app_witness :
  heap sampleWorld !! 1%positive = Some sampleLogger
  ∧ issued (c ← WithOptions 1%positive [Development];
            WithOptions c [AddCallerSkip 3]) sampleWorld
    = issued (WithOptions 1%positive [Development; AddCallerSkip 3])
        sampleWorld.
Proof.
  split; [reflexivity|].
  exact (WithOptions_twice_is_WithOptions_app (sink := TestCore_Sink)
           1%positive sampleLogger [Development] [AddCallerSkip 3]
           sampleWorld eq_refl).
Defined.

Lemma With_is_the_Fields_option_witness :
  heap sampleWorld !! 1%positive = Some sampleLogger
  ∧ issued (With 1%positive [mkField "user" "ada"]) sampleWorld
    = issued (WithOptions 1%positive [Fields [mkField "user" "ada"]])
        sampleWorld.
Proof.
  split; [reflexivity|].
  destruct (With_is_the_Fields_option (sink := TestCore_Sink)
              1%positive sampleLogger sampleWorld eq_refl) as (Hsame & _).
  exact (Hsame [mkField "user" "ada"] ltac:(discriminate)).
Defined.

Lemma options_on_different_fields_commute_witness :
  heap sampleWorld !! 1%positive = Some sampleLogger
  ∧ assigns (@Development TestCore Z) ≠ assigns (@AddCallerSkip TestCore Z 3)
  ∧ issued (WithOptions 1%positive
              [AddCaller; Development; AddCallerSkip 3; ErrorOutput Discard])
      sampleWorld
    = issued (WithOptions 1%positive
                [AddCaller; AddCallerSkip 3; Development;
                 ErrorOutput Discard])
        sampleWorld.
Proof.
  split; [reflexivity|]. split; [discriminate|].
  exact (options_on_different_fields_commute (sink := TestCore_Sink)
           1%positive sampleLogger [AddCaller] [ErrorOutput Discard]
           Development (AddCallerSkip 3) sampleWorld eq_refl
           ltac:(discriminate)).
Defined.

Lemma AddCallerSkip_round_trip_witness :
  heap sampleWorld !! 1%positive = Some sampleLogger
  ∧ - 2 ^ 63 ≤ callerSkip sampleLogger < 2 ^ 63
  ∧ issued (WithOptions 1%positive
              [AddCallerSkip (2 ^ 63 - 1); AddCallerSkip (- (2 ^ 63 - 1))])
      sampleWorld
    = Some sampleLogger.
Proof.
  split; [reflexivity|]. split; [done|].
  exact (AddCallerSkip_round_trip (sink := TestCore_Sink)
           1%positive sampleLogger (2 ^ 63 - 1) sampleWorld eq_refl
           ltac:(done)).
Defined.

Lemma options_change_only_what_they_assign_witness :
  heap sampleWorld !! 2%positive = Some quietLogger
  ∧ name <$> issued (WithOptions 2%positive
                       [Development; WithClock 5; AddCallerSkip 1])
               sampleWorld
    = Some "x".
Proof.
  split; [reflexivity|].
  destruct (options_change_only_what_they_assign (sink := TestCore_Sink)
              2%positive quietLogger
              [Development; WithClock 5; AddCallerSkip 1] sampleWorld
              eq_refl) as (Hname & _).
  exact Hname.
Defined.

Lemma New_without_options_does_not_annotate_witness :
  Core_Enabled (LevelCore InfoLevel []) InfoLevel = true
  ∧ Core_Check (LevelCore InfoLevel [])
      (mkEntry "" (Clock_Now DefaultClock) InfoLevel "hello" noCaller "")
      None
    = Some (mkCheckedEntry (mkEntry "" 0 InfoLevel "hello" noCaller "")
              None None)
  ∧ InfoLevel ≤ FatalLevel
  ∧ ∃ l w1 ce,
      New (Some (LevelCore InfoLevel [])) [] sampleWorld = Some (l, w1)
      ∧ check (rt := framesRuntime) l InfoLevel "hello" w1
        = Some (Some ce,
                mkWorld (heap w1)
                  (trace sampleWorld
                   ++ admissionEvents (defaultLogger (LevelCore InfoLevel []))
                        InfoLevel "hello"))
      ∧ ceEntry ce = mkEntry "" 0 InfoLevel "hello" noCaller ""
      ∧ ceErrorOutput ce = Some LockedStderr.
Proof.
  do 2 (split; [reflexivity|]). split; [done|].
  exact (New_without_options_does_not_annotate (sink := TestCore_Sink)
           (time := ConstantClock) (rt := framesRuntime)
           (LevelCore InfoLevel []) InfoLevel "hello"
           (mkCheckedEntry (mkEntry "" 0 InfoLevel "hello" noCaller "")
              None None)
           sampleWorld (λ _, eq_refl true) eq_refl ltac:(done)).
Defined.

Lemma Sugar_skips_two_more_frames_witness :
  heap sampleWorld !! 1%positive = Some sampleLogger
  ∧ addCaller sampleLogger = true
  ∧ Core_Enabled (core sampleLogger) WarnLevel = true
  ∧ Core_Check (core sampleLogger) (entryOf sampleLogger WarnLevel "careful")
      None
    = Some (mkCheckedEntry (entryOf sampleLogger WarnLevel "careful")
              None None)
  ∧ ∃ s w1 depth ce tr,
      Sugar 1%positive sampleWorld = Some (s, w1)
      ∧ check (rt := framesRuntime) (base s) WarnLevel "careful" w1
        = Some (Some ce,
                mkWorld (heap w1)
                  (trace w1
                   ++ admissionEvents sampleLogger WarnLevel "careful"
                   ++ EvCapture 4 depth :: tr)).
Proof.
  do 4 (split; [reflexivity|]).
  destruct (Sugar_skips_two_more_frames (sink := TestCore_Sink)
              (time := ConstantClock) (rt := framesRuntime)
              1%positive sampleLogger WarnLevel "careful"
              (mkCheckedEntry (entryOf sampleLogger WarnLevel "careful")
                 None None)
              sampleWorld eq_refl eq_refl (λ _, eq_refl true) eq_refl)
    as (s & w1 & depth & ce & tr & _ & _ & HSugar & Hcheck & _).
  exists s, w1, depth, ce, tr. split; [exact HSugar|exact Hcheck].
Defined.

